(** * ESP32-the-Sequel: grid navigation, planning loop and motion loop

    A shallow embedding of the two Python programs of the repository:

    - [esp32_code/Dijkstra.py], the planning node (MicroPython): the
      priority queue, [get_valid_neighbors], [dijkstra],
      [get_action_from_path] and the per-message body of the server loop;
    - [controllers/the_sequel_bot.py], the motion node (Webots): the
      [ObstacleDetector] and [TurnController] classes and the resolution of
      the effective command in [main].

    Python integers are [Z]; the floats of the motion node are Rocq's
    binary64 [float], those of the planning node go through the interface
    [PyFloat]; dictionaries are [gmap]s, sets are [gset]s; module-level
    globals and object attributes are records passed explicitly.  A Python
    call that can raise returns a [result]. *)

From Stdlib Require Import ZArith Lia Floats.
From stdpp Require Import gmap strings list sorting.

Local Open Scope Z_scope.
Set Warnings "-clear-no-such-hyp".

(** * The planning node: [Dijkstra.py] *)

(** ** Python outcomes *)

Inductive exn : Set :=
  IndexError | KeyError | ValueError | TypeError | OverflowError
| AttributeError.

(** What running a piece of Python yields: a value, a raised exception, or
    [OutOfFuel] when the model has no answer: the bound put on a [while]
    loop is used up, or a function of the C library is asked for a value
    that no standard fixes. *)
Inductive result (A : Type) : Type :=
| Ret (a : A)
| Raise (e : exn)
| OutOfFuel.
Arguments Ret {A} a.
Arguments Raise {A} e.
Arguments OutOfFuel {A}.

#[global] Instance result_ret : MRet result := @Ret.
#[global] Instance result_bind : MBind result := fun A B f m =>
  match m with
  | Ret a => f a
  | Raise e => Raise e
  | OutOfFuel => OutOfFuel
  end.

(** [l[i]] on a Python list: negative indices count from the end. *)
Definition py_index {A} (l : list A) (i : Z) : result A :=
  let j := if i <? 0 then i + Z.of_nat (length l) else i in
  if j <? 0 then Raise IndexError
  else match l !! Z.to_nat j with
       | Some x => Ret x
       | None => Raise IndexError
       end.

(** ** Grid *)

Abbreviation cell := (Z * Z)%type.
Abbreviation grid := (list (list Z)).

Definition GRID_ROWS : Z := 15.
Definition GRID_COLS : Z := 21.

(** 0 = black line (pathable), 1 = white space. *)
Definition grid_map : grid :=
  [ [1;1;1;1;1;1;1;1;1;1;1;1;1;1;0;1;0;1;0;1;0];
    [1;1;1;1;1;1;1;1;1;1;1;1;1;1;0;1;0;1;0;1;0];
    [0;0;0;0;0;0;0;0;0;0;0;0;0;0;0;0;0;0;0;0;0];
    [0;1;1;1;1;1;1;1;1;1;0;1;1;1;1;1;1;1;1;1;0];
    [0;1;1;1;1;1;1;1;1;1;0;1;1;1;1;1;1;1;1;1;0];
    [0;0;0;0;0;0;0;0;0;0;0;1;1;1;1;1;1;1;1;1;0];
    [0;1;1;1;1;1;1;1;1;1;0;1;1;1;1;1;1;1;1;1;0];
    [0;0;0;0;0;0;0;0;0;0;0;0;0;0;0;0;0;0;0;0;0];
    [0;1;1;1;1;1;1;1;1;1;0;1;1;1;1;1;1;1;1;1;0];
    [0;1;1;1;1;1;1;1;1;1;0;0;0;0;0;0;0;0;0;0;0];
    [0;1;1;1;1;1;1;1;1;1;0;1;1;1;1;1;1;1;1;1;0];
    [0;1;1;1;1;1;1;1;1;1;0;1;1;1;1;1;1;1;1;1;0];
    [0;0;0;0;0;0;0;0;0;0;0;0;0;0;0;0;0;0;0;0;0];
    [0;1;0;1;0;1;0;1;1;1;1;1;1;1;1;1;1;1;1;1;1];
    [0;1;0;1;0;1;0;1;1;1;1;1;1;1;1;1;1;1;1;1;1] ].

(** [grid[r][c]]. *)
Definition grid_get (g : grid) (r c : Z) : result Z :=
  row ← py_index g r; py_index row c.

(** ** SimplePriorityQueue *)

Record pq_entry : Type := PqEntry { item : cell; priority : Z }.

(** [list.sort(key=priority)] is stable: an entry goes before the first
    entry of the sorted rest whose priority is not smaller. *)
Fixpoint sort_insert (x : pq_entry) (q : list pq_entry) : list pq_entry :=
  match q with
  | [] => [x]
  | y :: q' =>
      if priority x <=? priority y then x :: y :: q'
      else y :: sort_insert x q'
  end.

Definition sort_by_priority (q : list pq_entry) : list pq_entry :=
  foldr sort_insert [] q.

Definition pq_put (q : list pq_entry) (it : cell) (pr : Z) : list pq_entry :=
  sort_by_priority (q ++ [PqEntry it pr]).

Definition pq_get (q : list pq_entry) : option cell * list pq_entry :=
  match q with
  | [] => (None, [])
  | e :: q' => (Some (item e), q')
  end.

Definition pq_is_empty (q : list pq_entry) : bool :=
  Z.of_nat (length q) =? 0.

(** ** get_valid_neighbors *)

Definition DIRECTIONS : list (Z * Z) := [(0, 1); (0, -1); (1, 0); (-1, 0)].

Fixpoint neighbors_loop (dirs : list (Z * Z)) (r c rows cols : Z) (g : grid)
    (neighbors : list (cell * Z)) : result (list (cell * Z)) :=
  match dirs with
  | [] => Ret neighbors
  | (dr, dc) :: dirs' =>
      let nr := r + dr in
      let nc := c + dc in
      if (0 <=? nr) && (nr <? rows) && (0 <=? nc) && (nc <? cols) then
        v ← grid_get g nr nc;
        if v =? 0
        then neighbors_loop dirs' r c rows cols g (neighbors ++ [((nr, nc), 1)])
        else neighbors_loop dirs' r c rows cols g neighbors
      else neighbors_loop dirs' r c rows cols g neighbors
  end.

Definition get_valid_neighbors (r c rows cols : Z) (g : grid)
  : result (list (cell * Z)) :=
  neighbors_loop DIRECTIONS r c rows cols g [].

(** ** dijkstra *)

(** The three mutable locals of the search loop. *)
Record search : Type := Search {
  pq : list pq_entry;
  came_from : gmap cell (option cell);
  cost_so_far : gmap cell Z
}.

(** The [for next_node, cost in ...] loop that relaxes the neighbours of
    [current_node]. *)
Fixpoint relax (current_node : cell) (nbrs : list (cell * Z)) (s : search)
  : result search :=
  match nbrs with
  | [] => Ret s
  | (next_node, cost) :: nbrs' =>
      match cost_so_far s !! current_node with
      | None => Raise KeyError
      | Some c =>
          let new_cost := c + cost in
          let better :=
            match cost_so_far s !! next_node with
            | None => true
            | Some old => new_cost <? old
            end in
          if better then
            relax current_node nbrs'
              (Search (pq_put (pq s) next_node new_cost)
                      (<[next_node := Some current_node]> (came_from s))
                      (<[next_node := new_cost]> (cost_so_far s)))
          else relax current_node nbrs' s
      end
  end.

(** [while not pq.is_empty(): ...]; the boolean is [path_found]. *)
Fixpoint search_loop (fuel : nat) (rows cols : Z) (g : grid) (end_node : cell)
    (s : search) : result (bool * search) :=
  match fuel with
  | O => OutOfFuel
  | S fuel' =>
      if pq_is_empty (pq s) then Ret (false, s)
      else match pq_get (pq s) with
           | (None, _) => Raise TypeError
           | (Some current_node, q') =>
               if decide (current_node = end_node) then
                 Ret (true, Search q' (came_from s) (cost_so_far s))
               else
                 nbrs ← get_valid_neighbors current_node.1 current_node.2 rows cols g;
                 s' ← relax current_node nbrs
                        (Search q' (came_from s) (cost_so_far s));
                 search_loop fuel' rows cols g end_node s'
           end
  end.

(** [while node is not None: path.append(node); node = came_from.get(node)]. *)
Fixpoint reconstruct (fuel : nat) (cf : gmap cell (option cell))
    (node : option cell) (path : list cell) : result (list cell) :=
  match node with
  | None => Ret path
  | Some n =>
      match fuel with
      | O => OutOfFuel
      | S fuel' =>
          reconstruct fuel' cf (default None (cf !! n)) (path ++ [n])
      end
  end.

(** The test on one endpoint at the top of [dijkstra]. *)
Definition valid_node (g : grid) (rows cols : Z) (n : cell) : result bool :=
  if (0 <=? n.1) && (n.1 <? rows) && (0 <=? n.2) && (n.2 <? cols) then
    v ← grid_get g n.1 n.2; Ret (v =? 0)
  else Ret false.

Definition dijkstra_fuel (fuel : nat) (g : grid) (start_node end_node : cell)
  : result (list cell) :=
  let rows := Z.of_nat (length g) in
  row0 ← py_index g 0;
  let cols := Z.of_nat (length (row0 : list Z)) in
  ok_start ← valid_node g rows cols start_node;
  if negb ok_start then Ret []
  else
    ok_end ← valid_node g rows cols end_node;
    if negb ok_end then Ret []
    else
      '(path_found, s) ← search_loop fuel rows cols g end_node
          (Search (pq_put [] start_node 0)
                  {[ start_node := None ]} {[ start_node := 0 ]});
      if negb path_found then Ret []
      else
        path ← reconstruct fuel (came_from s) (Some end_node) [];
        let path := reverse path in
        match path with
        | [] => Raise IndexError
        | first :: _ =>
            if decide (first ≠ start_node) then Ret [] else Ret path
        end.

(** The loops of [dijkstra] are bounded by the size of the grid: no cell is
    expanded twice (see [dijkstra_total]). *)
Definition grid_fuel (g : grid) : nat :=
  S (S (length g * length (default [] (g !! 0%nat)))).

Definition dijkstra (g : grid) (start_node end_node : cell) : result (list cell) :=
  dijkstra_fuel (grid_fuel g) g start_node end_node.

(** ** Floats of the planning node

    MicroPython's float is single or double precision depending on the
    port, and [math.sin], [math.cos] and [math.atan2] come from the C
    library.  The planner is therefore written over the operations it uses;
    [f_lt a b] is the comparison [a < b] ([a > b] is [f_lt b a]).  The
    functions of [math] return a float or raise: [math.sin] and [math.cos]
    raise [ValueError] on an infinity (and [TypeError] on a value that is
    not a number), and the heading they are given is read from the message
    as it comes. *)

Class PyFloat : Type := {
  flt : Type;
  f_of_Z : Z → flt;
  f_pi : flt;
  f_neg : flt → flt;
  f_sub : flt → flt → flt;
  f_div : flt → flt → flt;
  f_abs : flt → flt;
  f_lt : flt → flt → bool;
  f_sin : flt → result flt;
  f_cos : flt → result flt;
  f_atan2 : flt → flt → result flt;
  f_radians : flt → flt
}.

(** ** State of the planning loop: the module-level globals *)

Record planner : Type := Planner {
  current_robot_grid_pos_actual : option cell;
  current_robot_grid_pos_path : option cell;
  goal_grid_pos : option cell;
  planned_path : list cell;
  current_path_index : Z;
  path_needs_replan : bool;
  last_replan_time : Z
}.

Definition initial_planner : planner :=
  Planner None None None [] 0 true 0.

Definition REPLAN_INTERVAL_MS : Z := 1000.

Definition set_actual (v : option cell) (st : planner) : planner :=
  Planner v (current_robot_grid_pos_path st) (goal_grid_pos st)
    (planned_path st) (current_path_index st) (path_needs_replan st)
    (last_replan_time st).
Definition set_path_pos (v : option cell) (st : planner) : planner :=
  Planner (current_robot_grid_pos_actual st) v (goal_grid_pos st)
    (planned_path st) (current_path_index st) (path_needs_replan st)
    (last_replan_time st).
Definition set_goal (v : option cell) (st : planner) : planner :=
  Planner (current_robot_grid_pos_actual st) (current_robot_grid_pos_path st) v
    (planned_path st) (current_path_index st) (path_needs_replan st)
    (last_replan_time st).
Definition set_planned_path (v : list cell) (st : planner) : planner :=
  Planner (current_robot_grid_pos_actual st) (current_robot_grid_pos_path st)
    (goal_grid_pos st) v (current_path_index st) (path_needs_replan st)
    (last_replan_time st).
Definition set_path_index (v : Z) (st : planner) : planner :=
  Planner (current_robot_grid_pos_actual st) (current_robot_grid_pos_path st)
    (goal_grid_pos st) (planned_path st) v (path_needs_replan st)
    (last_replan_time st).
Definition set_needs_replan (v : bool) (st : planner) : planner :=
  Planner (current_robot_grid_pos_actual st) (current_robot_grid_pos_path st)
    (goal_grid_pos st) (planned_path st) (current_path_index st) v
    (last_replan_time st).
Definition set_last_replan_time (v : Z) (st : planner) : planner :=
  Planner (current_robot_grid_pos_actual st) (current_robot_grid_pos_path st)
    (goal_grid_pos st) (planned_path st) (current_path_index st)
    (path_needs_replan st) v.

(** Code that reads and writes the globals and may raise: the state is kept
    up to the point where the exception leaves. *)
Definition M (A : Type) : Type := planner → result A * planner.

Definition m_ret {A} (a : A) : M A := λ st, (Ret a, st).
Definition m_bind {A B} (m : M A) (f : A → M B) : M B := λ st,
  match m st with
  | (Ret a, st') => f a st'
  | (Raise e, st') => (Raise e, st')
  | (OutOfFuel, st') => (OutOfFuel, st')
  end.
Definition m_get : M planner := λ st, (Ret st, st).
Definition m_modify (f : planner → planner) : M unit := λ st, (Ret tt, f st).
Definition m_lift {A} (r : result A) : M A := λ st, (r, st).

#[global] Instance M_ret : MRet M := @m_ret.
#[global] Instance M_bind : MBind M := λ A B f m, m_bind m f.

(** [l.index(x, start)]. *)
Definition py_list_index (l : list cell) (x : cell) (start : Z) : result Z :=
  let len := Z.of_nat (length l) in
  let start := if start <? 0 then Z.max 0 (start + len) else start in
  match list_find (λ y, y = x) (drop (Z.to_nat start) l) with
  | Some (i, _) => Ret (start + Z.of_nat i)
  | None => Raise ValueError
  end.

(** [time.ticks_diff] of MicroPython: the difference of two tick counts
    that wrap around at [TICKS_PERIOD]. *)
Definition TICKS_PERIOD : Z := 2 ^ 30.
Definition ticks_diff (t1 t0 : Z) : Z :=
  (t1 - t0 + TICKS_PERIOD / 2) mod TICKS_PERIOD - TICKS_PERIOD / 2.

Section Planner.
Context {pf : PyFloat}.

(** ** get_action_from_path *)

(** Lines 204-235: from the path segment and the heading to the action. *)
Definition heading_action (current_node_on_path next_node_on_path : cell)
    (world_theta_rad : flt) : result (string * option cell) :=
  let dr := next_node_on_path.1 - current_node_on_path.1 in
  let dc := next_node_on_path.2 - current_node_on_path.2 in
  let target :=
    if (dc =? 1) && (dr =? 0) then Some (f_of_Z 0)
    else if (dc =? -1) && (dr =? 0) then Some f_pi
    else if (dr =? 1) && (dc =? 0) then Some (f_div f_pi (f_of_Z 2))
    else if (dr =? -1) && (dc =? 0) then Some (f_div (f_neg f_pi) (f_of_Z 2))
    else None in
  match target with
  | None => Ret ("stop"%string, Some current_node_on_path)
  | Some target_theta_rad =>
      sin_theta ← f_sin world_theta_rad;
      cos_theta ← f_cos world_theta_rad;
      current_theta_norm ← f_atan2 sin_theta cos_theta;
      let angle_diff := f_sub target_theta_rad current_theta_norm in
      sin_diff ← f_sin angle_diff;
      cos_diff ← f_cos angle_diff;
      angle_diff ← f_atan2 sin_diff cos_diff;
      let ANGLE_THRESHOLD_RAD := f_radians (f_of_Z 40) in
      if f_lt ANGLE_THRESHOLD_RAD (f_abs angle_diff) then
        Ret ((if f_lt (f_of_Z 0) angle_diff
              then "turn_left" else "turn_right")%string,
             Some current_node_on_path)
      else Ret ("forward"%string, Some current_node_on_path)
  end.

Definition get_action_from_path (robot_pos_on_path : option cell)
    (world_theta_rad : flt) (webots_line_sensors_binary : list Z)
  : M (string * option cell) :=
  st ← m_get;
  let stop := mret ("stop"%string, robot_pos_on_path) in
  match robot_pos_on_path with
  | None => stop
  | Some pos =>
      if bool_decide (planned_path st = []) then stop
      else if bool_decide (robot_pos_on_path = goal_grid_pos st) then stop
      else
        let len := Z.of_nat (length (planned_path st)) in
        let idx := current_path_index st in
        if negb ((0 <=? idx) && (idx <? len - 1)) then stop
        else
          current_node_on_path ← m_lift (py_index (planned_path st) idx);
          next_node_on_path ← m_lift (py_index (planned_path st) (idx + 1));
          if bool_decide (pos ≠ current_node_on_path) then
            match py_list_index (planned_path st) pos idx with
            | Ret i =>
                m_modify (set_path_index i);;
                current_node_on_path ← m_lift (py_index (planned_path st) i);
                if len - 1 <=? i then stop
                else
                  next_node_on_path ←
                    m_lift (py_index (planned_path st) (i + 1));
                  m_lift (heading_action current_node_on_path
                            next_node_on_path world_theta_rad)
            | Raise ValueError => stop
            | Raise e => m_lift (Raise e)
            | OutOfFuel => m_lift OutOfFuel
            end
          else
            m_lift (heading_action current_node_on_path next_node_on_path
                      world_theta_rad)
  end.

(** ** The body of the server loop for one status message *)

Record status : Type := Status {
  robot_grid_pos : cell;
  status_goal_grid_pos : cell;
  theta_rad : flt;
  sensors_binary : list Z
}.

Record command : Type := Command {
  action : string;
  path : list cell;
  robot_pos_on_path_esp_thinks : option cell;
  current_path_idx_esp : Z
}.

(** Lines 299-322: the reported position and goal enter the belief. *)
Definition update_belief (m : status) (st : planner) : planner :=
  let new_robot_pos_actual := robot_grid_pos m in
  let new_goal_pos_from_webots := status_goal_grid_pos m in
  let st :=
    if bool_decide (Some new_robot_pos_actual ≠ current_robot_grid_pos_actual st)
    then
      let st := set_actual (Some new_robot_pos_actual) st in
      let st :=
        match current_robot_grid_pos_path st with
        | Some p =>
            if (1 <? Z.abs (new_robot_pos_actual.1 - p.1))
               || (1 <? Z.abs (new_robot_pos_actual.2 - p.2))
            then set_needs_replan true st else st
        | None => st
        end in
      match current_robot_grid_pos_path st with
      | None => set_path_pos (current_robot_grid_pos_actual st) st
      | Some _ => st
      end
    else st in
  let st :=
    if bool_decide (Some new_goal_pos_from_webots ≠ goal_grid_pos st)
    then set_needs_replan true (set_goal (Some new_goal_pos_from_webots) st)
    else st in
  let st :=
    match current_robot_grid_pos_actual st with
    | None => set_actual (Some new_robot_pos_actual) st
    | Some _ => st
    end in
  let st :=
    match current_robot_grid_pos_path st with
    | None => set_path_pos (Some new_robot_pos_actual) st
    | Some _ => st
    end in
  match goal_grid_pos st with
  | None => set_needs_replan true (set_goal (Some new_goal_pos_from_webots) st)
  | Some _ => st
  end.

(** Line 326: is a replan triggered? *)
Definition replan_due (now : Z) (st : planner) : bool :=
  path_needs_replan st
  || (REPLAN_INTERVAL_MS <? ticks_diff now (last_replan_time st)).

(** Lines 327-360: the replanning block. *)
Definition replan (now : Z) : M unit :=
  st ← m_get;
  match current_robot_grid_pos_actual st, goal_grid_pos st with
  | Some actual, Some goal =>
      new_path ← m_lift (dijkstra grid_map actual goal);
      match new_path with
      | first :: _ =>
          m_modify (λ st, set_path_index 0 (set_planned_path new_path st));;
          (if bool_decide (first = actual)
           then m_modify (set_path_pos (Some first))
           else match py_list_index new_path actual 0 with
                | Ret i =>
                    m_modify (λ st, set_path_pos (Some actual)
                                      (set_path_index i st))
                | Raise ValueError =>
                    m_modify (λ st, set_path_index 0
                                      (set_path_pos (Some first) st))
                | Raise e => m_lift (Raise e)
                | OutOfFuel => m_lift OutOfFuel
                end);;
          m_modify (λ st, set_last_replan_time now (set_needs_replan false st))
      | [] =>
          m_modify (λ st, set_needs_replan true (set_planned_path [] st))
      end
  | _, _ => mret tt
  end.

(** Lines 363-399: the action, and the cursor advanced on a confirmed
    arrival. *)
Definition choose_action (m : status) : M string :=
  st ← m_get;
  if bool_decide (planned_path st ≠ [])
     && bool_decide (current_robot_grid_pos_path st ≠ None)
     && bool_decide (goal_grid_pos st ≠ None)
  then
    '(action_to_send, _) ←
      get_action_from_path (current_robot_grid_pos_path st)
        (theta_rad m) (sensors_binary m);
    st ← m_get;
    let len := Z.of_nat (length (planned_path st)) in
    let idx := current_path_index st in
    (if bool_decide (current_robot_grid_pos_actual st
                     = current_robot_grid_pos_path st)
     then
       if bool_decide (action_to_send = "forward"%string) && (idx <? len - 1)
       then
         if idx <? len - 1 then
           prospective_next_node_on_path ←
             m_lift (py_index (planned_path st) (idx + 1));
           if bool_decide (current_robot_grid_pos_actual st
                           = Some prospective_next_node_on_path)
           then m_modify (λ st, set_path_pos (Some prospective_next_node_on_path)
                                  (set_path_index (idx + 1) st))
           else mret tt
         else mret tt
       else mret tt
     else mret tt);;
    mret action_to_send
  else mret "stop"%string.

(** Lines 292-418: one [webots_status] message, up to the command that is
    sent back. *)
Definition handle_status (now : Z) (m : status) : M command :=
  m_modify (update_belief m);;
  st ← m_get;
  (if replan_due now st then replan now else mret tt);;
  action_to_send ← choose_action m;
  st ← m_get;
  action_to_send ←
    (if bool_decide (current_robot_grid_pos_actual st = goal_grid_pos st)
     then
       m_modify (λ st, set_needs_replan false (set_planned_path [] st));;
       mret "stop"%string
     else mret action_to_send);
  st ← m_get;
  mret (Command action_to_send (planned_path st)
          (current_robot_grid_pos_path st) (current_path_index st)).

(** ** The server loop *)

Record server : Type := Server { conn : bool; globals : planner }.

(** One line of the received text. *)
Inductive part : Type :=
| NotJson
| OtherMessage
| StatusMessage (m : status).

Inductive recv_outcome : Type :=
| RecvData (parts : list part)
| RecvEmpty
| RecvOSError (code : Z)
| RecvException.

(** What one turn of [while True] meets: the clock, whether [accept]
    returns a client (looked at only when there is none), and what [recv]
    yields. *)
Record loop_input : Type := LoopInput {
  current_time_ms : Z;
  accept_ok : bool;
  recv : recv_outcome
}.

(** An exception raised while a message is handled is caught and printed;
    the globals keep what was assigned before it. *)
Definition process_part (now : Z) (p : part) (st : planner) : planner :=
  match p with
  | StatusMessage m => (handle_status now m st).2
  | _ => st
  end.

Definition process_parts (now : Z) (parts : list part) (st : planner) : planner :=
  foldl (λ st p, process_part now p st) st parts.

(** Lines 425-435: empty data, the client has disconnected. *)
Definition disconnect_reset (st : planner) : planner :=
  set_needs_replan true
    (set_planned_path [] (set_path_pos None (set_actual None st))).

Definition loop_iteration (inp : loop_input) (sv : server) : server :=
  let accepted :=
    if conn sv then Some (globals sv)
    else if accept_ok inp then Some (set_needs_replan true (globals sv))
    else None in
  match accepted with
  | None => sv
  | Some st =>
      match recv inp with
      | RecvData parts =>
          Server true (process_parts (current_time_ms inp) parts st)
      | RecvEmpty => Server false (disconnect_reset st)
      | RecvOSError code =>
          if code =? 116 then Server true st else Server false st
      | RecvException => Server false st
      end
  end.

Definition initial_server : server := Server false initial_planner.

(** The states the server loop can be in. *)
Inductive reachable_server : server → Prop :=
| reachable_init : reachable_server initial_server
| reachable_step inp sv :
    reachable_server sv → reachable_server (loop_iteration inp sv).

End Planner.

(** * The motion node: [the_sequel_bot.py]

    CPython floats are binary64, Rocq's [float].  [round] and the float
    remainder [%] are not among Rocq's float operations and are taken from
    an interface; [round] raises on an infinity or a NaN. *)

Set Warnings "-inexact-float".

Class BotMath : Type := {
  py_round : float → result Z;
  py_fmod : float → float → float
}.

Definition FORWARD_SPEED : float := 1.5.
Definition GRID_CELL_SIZE : float := 0.05099.
Definition GRID_ORIGIN_X : float := 0.050002.
Definition GRID_ORIGIN_Z : float := -0.639e-05.
Definition DISTANCE_SENSOR_THRESHOLD : float := 110.
Definition OBSTACLE_DETECTION_ENABLED : bool := true.
Definition TURN_SPEED_FACTOR : float := 1.5.
Definition MIN_INITIAL_SPIN_DURATION : float := 0.6.
Definition MAX_SEARCH_SPIN_DURATION : float := 18.9.
Definition MAX_ADJUST_DURATION : float := 2.20.
Definition TURN_ADJUST_BASE_SPEED : float := FORWARD_SPEED * 0.8.
Definition TURN_UNTIL_LINE_FOUND : bool := true.
Definition AGGRESSIVE_CORRECTION_DIFFERENTIAL : float := FORWARD_SPEED * 1.3.
Definition MODERATE_CORRECTION_DIFFERENTIAL : float := FORWARD_SPEED * 1.2.
Definition MATH_PI : float := 0x1.921fb54442d18p+1.

(** [math.degrees]. *)
Definition degrees (x : float) : float := x * (180 / MATH_PI).

(** Truth value of a sensor bit, and [any]. *)
Definition truthy (b : Z) : bool := negb (b =? 0).
Definition py_any (l : list Z) : bool := existsb truthy l.

(** ** CoordinateConverter and ObstacleDetector *)

Section Obstacles.
Context {bm : BotMath}.

Definition world_to_grid (world_x world_z : float) : result cell :=
  col ← py_round ((world_x - GRID_ORIGIN_X) / GRID_CELL_SIZE);
  row ← py_round ((world_z - GRID_ORIGIN_Z) / GRID_CELL_SIZE);
  let col := Z.max 0 (Z.min col (GRID_COLS - 1)) in
  let row := Z.max 0 (Z.min row (GRID_ROWS - 1)) in
  Ret (row, col).

Record detector : Type := Detector {
  detected_obstacles : gset cell;
  recent_obstacles : list cell
}.

Definition new_detector : detector := Detector ∅ [].

Record pose : Type := Pose { pose_x : float; pose_z : float; pose_theta : float }.

Definition _calculate_obstacle_position (robot_row robot_col : Z)
    (orientation : float) (sensor_index : Z) : result cell :=
  let theta_degrees := py_fmod (degrees orientation) 360 in
  let offsets : list (Z * Z) :=
    if ((-45 <=? theta_degrees) && (theta_degrees <=? 45)
        || (315 <=? theta_degrees) && (theta_degrees <=? 360))%float
    then [(0, 1); (-1, 1); (1, 1)]
    else if ((45 <? theta_degrees) && (theta_degrees <=? 135))%float
    then [(1, 0); (1, 1); (1, -1)]
    else if ((135 <? theta_degrees) && (theta_degrees <=? 225))%float
    then [(0, -1); (1, -1); (-1, -1)]
    else [(-1, 0); (-1, -1); (-1, 1)] in
  '(delta_row, delta_col) ← py_index offsets sensor_index;
  Ret (robot_row + delta_row, robot_col + delta_col).

Definition _is_valid_position (position : cell) : bool :=
  (0 <=? position.1) && (position.1 <? GRID_ROWS)
  && (0 <=? position.2) && (position.2 <? GRID_COLS).

(** The [for sensor_index, distance_value in enumerate(...)] loop. *)
Fixpoint sensors_loop (sensor_index : Z) (distance_values : list float)
    (current_row current_col : Z) (robot_orientation : float)
    (new_obstacles : list cell) (d : detector)
  : result (list cell * detector) :=
  match distance_values with
  | [] => Ret (new_obstacles, d)
  | distance_value :: rest =>
      let continue := sensors_loop (sensor_index + 1) rest
                        current_row current_col robot_orientation in
      if (DISTANCE_SENSOR_THRESHOLD <? distance_value)%float then
        obstacle_position ←
          _calculate_obstacle_position current_row current_col
            robot_orientation sensor_index;
        if _is_valid_position obstacle_position then
          if decide (obstacle_position ∉ detected_obstacles d) then
            continue (new_obstacles ++ [obstacle_position])
              (Detector ({[ obstacle_position ]} ∪ detected_obstacles d)
                        (recent_obstacles d))
          else continue new_obstacles d
        else continue new_obstacles d
      else continue new_obstacles d
  end.

Definition process_sensor_readings (d : detector) (robot_world_pose : pose)
    (robot_orientation : float) (distance_values : list float)
  : result (list cell * detector) :=
  if negb OBSTACLE_DETECTION_ENABLED then Ret ([], d)
  else
    '(current_row, current_col) ←
      world_to_grid (pose_x robot_world_pose) (pose_z robot_world_pose);
    sensors_loop 0 distance_values current_row current_col
      robot_orientation [] d.

Definition get_recent_obstacles (d : detector) : list cell * detector :=
  (recent_obstacles d, Detector (detected_obstacles d) []).

Definition add_recent_obstacles (d : detector) (obstacles : list cell) : detector :=
  Detector (detected_obstacles d) (recent_obstacles d ++ obstacles).

(** What [main] does with the detector: every 0.2 s it processes the
    readings and queues the new obstacles; with every status message it
    drains the queue. *)
Inductive detector_op : Type :=
| Sense (robot_world_pose : pose) (distance_values : list float)
| Report.

(** Runs the operations in order; yields the batches returned by
    [process_sensor_readings], the lists returned by
    [get_recent_obstacles], and the detector at the end.  An exception
    ends the program. *)
Fixpoint run_detector (ops : list detector_op) (d : detector)
  : result (list (list cell) * list (list cell) * detector) :=
  match ops with
  | [] => Ret ([], [], d)
  | Sense robot_world_pose distance_values :: ops' =>
      '(new_obstacles, d) ←
        process_sensor_readings d robot_world_pose
          (pose_theta robot_world_pose) distance_values;
      let d := if bool_decide (new_obstacles ≠ [])
               then add_recent_obstacles d new_obstacles else d in
      '(batches, reports, d') ← run_detector ops' d;
      Ret (new_obstacles :: batches, reports, d')
  | Report :: ops' =>
      let '(obstacles, d) := get_recent_obstacles d in
      '(batches, reports, d') ← run_detector ops' d;
      Ret (batches, obstacles :: reports, d')
  end.

End Obstacles.

(** ** TurnController *)

Inductive phase : Set := NONE | INITIATE_SPIN | SEARCHING_LINE | ADJUSTING_ON_LINE.

Record turn_controller : Type := TurnController {
  current_phase : phase;
  active_command : option string;
  phase_start_time : float
}.

Definition new_turn_controller : turn_controller := TurnController NONE None 0.

#[global] Instance phase_eq_dec : EqDecision phase.
Proof. solve_decision. Defined.

Definition initiate_turn (tc : turn_controller) (turn_direction : option string)
    (current_time : float) : turn_controller :=
  if bool_decide (active_command tc ≠ turn_direction)
     || bool_decide (current_phase tc = NONE)
  then TurnController INITIATE_SPIN turn_direction current_time
  else tc.

Definition _calculate_turn_speeds (tc : turn_controller)
    (inner_factor outer_factor : float) : float * float :=
  let inner_speed := (- FORWARD_SPEED * TURN_SPEED_FACTOR * inner_factor)%float in
  let outer_speed := (FORWARD_SPEED * TURN_SPEED_FACTOR * outer_factor)%float in
  if bool_decide (active_command tc = Some "turn_left"%string)
  then (inner_speed, outer_speed)
  else (outer_speed, inner_speed).

Definition _execute_initial_spin (tc : turn_controller) (current_time : float)
  : (float * float) * turn_controller :=
  let spin_speeds := _calculate_turn_speeds tc 0.8 1.1 in
  let tc :=
    if (MIN_INITIAL_SPIN_DURATION <? current_time - phase_start_time tc)%float
    then TurnController SEARCHING_LINE (active_command tc) current_time
    else tc in
  (spin_speeds, tc).

Definition _execute_line_search (tc : turn_controller) (line_sensors : list Z)
    (current_time : float) : (float * float) * turn_controller :=
  let search_speeds := _calculate_turn_speeds tc 0.5 0.9 in
  if py_any line_sensors then
    (search_speeds,
     TurnController ADJUSTING_ON_LINE (active_command tc) current_time)
  else if negb TURN_UNTIL_LINE_FOUND
          && (MAX_SEARCH_SPIN_DURATION <? current_time - phase_start_time tc)%float
  then ((0, 0)%float, TurnController NONE (active_command tc) (phase_start_time tc))
  else (search_speeds, tc).

(** A block of statements either returns a value or falls through to the
    statements after it. *)
Definition returned_or {R} (block : option R) (rest : R) : R :=
  match block with
  | Some r => r
  | None => rest
  end.

(** The [if]/[elif]/[else] chain of [_execute_line_adjustment], lines
    257-281.  [Some] is a [return]; a branch without one would give
    [None]. *)
Definition adjustment_chain (tc : turn_controller)
    (left_sensor center_sensor right_sensor : Z) (current_time : float)
  : option (option (float * float) * turn_controller) :=
  let base_speed := TURN_ADJUST_BASE_SPEED in
  let moderate_diff :=
    (MODERATE_CORRECTION_DIFFERENTIAL * (base_speed / FORWARD_SPEED))%float in
  let aggressive_diff :=
    (AGGRESSIVE_CORRECTION_DIFFERENTIAL * (base_speed / FORWARD_SPEED))%float in
  let l := truthy left_sensor in
  let c := truthy center_sensor in
  let r := truthy right_sensor in
  if negb l && c && negb r then
    Some (Some (base_speed * 0.3, base_speed * 0.3)%float,
          TurnController NONE None (phase_start_time tc))
  else if l && c && negb r then
    Some (Some (base_speed - moderate_diff, base_speed)%float, tc)
  else if negb l && c && r then
    Some (Some (base_speed, base_speed - moderate_diff)%float, tc)
  else if l && negb c && negb r then
    Some (Some (base_speed - aggressive_diff, base_speed)%float, tc)
  else if negb l && negb c && r then
    Some (Some (base_speed, base_speed - aggressive_diff)%float, tc)
  else if negb (py_any [left_sensor; center_sensor; right_sensor]) then
    let tc := TurnController SEARCHING_LINE (active_command tc) current_time in
    Some (Some (_calculate_turn_speeds tc 0.5 0.9), tc)
  else
    Some (Some (base_speed * 0.7, base_speed * 0.7)%float, tc).

(** Lines 283-287, after the chain: the timeout check.  Falling off the
    end of the function returns [None]. *)
Definition adjustment_timeout (tc : turn_controller) (current_time : float)
  : option (float * float) * turn_controller :=
  if (MAX_ADJUST_DURATION <? current_time - phase_start_time tc)%float
  then (Some (0, 0)%float, TurnController NONE None (phase_start_time tc))
  else (None, tc).

Definition _execute_line_adjustment (tc : turn_controller)
    (line_sensors : list Z) (current_time : float)
  : result (option (float * float) * turn_controller) :=
  match line_sensors with
  | [left_sensor; center_sensor; right_sensor] =>
      Ret (returned_or
             (adjustment_chain tc left_sensor center_sensor right_sensor
                current_time)
             (adjustment_timeout tc current_time))
  | _ => Raise ValueError
  end.

Definition execute_turn (tc : turn_controller) (turn_direction : option string)
    (line_sensors : list Z) (current_time : float)
  : result (option (float * float) * turn_controller) :=
  match current_phase tc with
  | INITIATE_SPIN =>
      let '(speeds, tc) := _execute_initial_spin tc current_time in
      Ret (Some speeds, tc)
  | SEARCHING_LINE =>
      let '(speeds, tc) := _execute_line_search tc line_sensors current_time in
      Ret (Some speeds, tc)
  | ADJUSTING_ON_LINE => _execute_line_adjustment tc line_sensors current_time
  | NONE => Ret (Some (0, 0)%float, tc)
  end.

Definition is_turning (tc : turn_controller) : bool :=
  bool_decide (current_phase tc ≠ NONE).

Definition reset (tc : turn_controller) : turn_controller :=
  TurnController NONE None (phase_start_time tc).

(** ** main: from the remote command to the wheels *)

Definition calculate_line_following_speeds (line_sensors : list Z)
  : result (float * float) :=
  match line_sensors with
  | [left_sensor; center_sensor; right_sensor] =>
      let base_speed := FORWARD_SPEED in
      let l := truthy left_sensor in
      let c := truthy center_sensor in
      let r := truthy right_sensor in
      Ret (if negb l && c && negb r then (base_speed, base_speed)
           else if l && c && negb r
           then (base_speed - MODERATE_CORRECTION_DIFFERENTIAL, base_speed)
           else if negb l && c && r
           then (base_speed, base_speed - MODERATE_CORRECTION_DIFFERENTIAL)
           else if l && negb c && negb r
           then (base_speed - AGGRESSIVE_CORRECTION_DIFFERENTIAL, base_speed)
           else if negb l && negb c && r
           then (base_speed, base_speed - AGGRESSIVE_CORRECTION_DIFFERENTIAL)
           else if l && c && r then (base_speed * 0.7, base_speed * 0.7)
           else if negb (py_any line_sensors)
           then (base_speed * 0.2, base_speed * 0.2)
           else (base_speed * 0.3, base_speed * 0.3))%float
  | _ => Raise ValueError
  end.

Definition is_turn_command (c : string) : bool :=
  bool_decide (c = "turn_left"%string) || bool_decide (c = "turn_right"%string).

(** One received line: not JSON; JSON that is not an object (a number, a
    string, a list, [null]); an object of another type; or a command with
    its [action] (['stop'] when the field is missing). *)
Inductive bot_message : Type :=
| BadJson
| NotObject
| NotCommand
| CommandMessage (new_command : string).

(** Lines 562-576, the body of the loop over the messages.  Only
    [json.JSONDecodeError] is caught: on a value that is not an object
    [esp_data.get] raises [AttributeError], which leaves [main]. *)
Definition receive_command (msg : bot_message)
    (s : turn_controller * string) : result (turn_controller * string) :=
  let '(tc, esp32_command) := s in
  match msg with
  | BadJson => Ret (tc, esp32_command)
  | NotObject => Raise AttributeError
  | NotCommand => Ret (tc, esp32_command)
  | CommandMessage new_command =>
      let tc :=
        if bool_decide (new_command ≠ esp32_command)
           && is_turn_command esp32_command
           && negb (is_turn_command new_command)
        then reset tc else tc in
      Ret (tc, new_command)
  end.

Fixpoint receive_commands (msgs : list bot_message)
    (s : turn_controller * string) : result (turn_controller * string) :=
  match msgs with
  | [] => Ret s
  | msg :: msgs' => s ← receive_command msg s; receive_commands msgs' s
  end.

(** Lines 578-592: the effective command. *)
Definition resolve_effective_command (tc : turn_controller)
    (esp32_command : string) (line_detected : list Z)
  : option string * turn_controller :=
  let sensors_detect_line := py_any line_detected in
  if is_turning tc then
    if bool_decide (esp32_command = "stop"%string)
    then (Some "stop"%string, reset tc)
    else (active_command tc, tc)
  else if sensors_detect_line
          && negb (is_turn_command esp32_command
                   || bool_decide (esp32_command = "stop"%string))
  then (Some "forward"%string, tc)
  else if negb sensors_detect_line
          && bool_decide (esp32_command = "forward"%string)
  then (Some "turn_left"%string, tc)
  else (Some esp32_command, tc).

(** Lines 594-604: the wheel speeds for the effective command. *)
Definition execute_movement (tc : turn_controller)
    (effective_command : option string) (line_detected : list Z)
    (current_time : float) : result ((float * float) * turn_controller) :=
  if bool_decide (effective_command = Some "stop"%string) then
    Ret ((0, 0)%float, reset tc)
  else if bool_decide (effective_command = Some "forward"%string) then
    speeds ← calculate_line_following_speeds line_detected;
    Ret (speeds, reset tc)
  else if bool_decide (effective_command = Some "turn_left"%string)
          || bool_decide (effective_command = Some "turn_right"%string)
  then
    let tc := initiate_turn tc effective_command current_time in
    '(speeds, tc) ← execute_turn tc effective_command line_detected current_time;
    match speeds with
    | Some speeds => Ret (speeds, tc)
    | None => Raise TypeError
    end
  else Ret ((0, 0)%float, tc).

(** A connected tick from the received messages on. *)
Definition motion_tick (tc : turn_controller) (esp32_command : string)
    (msgs : list bot_message) (line_detected : list Z) (current_time : float)
  : result ((float * float) * turn_controller * string) :=
  '(tc, esp32_command) ← receive_commands msgs (tc, esp32_command);
  let '(effective_command, tc) :=
    resolve_effective_command tc esp32_command line_detected in
  '(speeds, tc) ←
    execute_movement tc effective_command line_detected current_time;
  Ret (speeds, tc, esp32_command).

(** ** NetworkManager.receive_data

    The decoded text is the list of its code points.  Both nodes cut it
    into messages the same way: [text.strip().split('\n')], without the
    parts that are blank.  Which code points [str.strip] takes for
    whitespace depends on the interpreter (CPython, MicroPython) and is a
    parameter here. *)

Definition NEWLINE : Z := 10.

Section Framing.
Variable py_isspace : Z → bool.

Fixpoint py_lstrip (s : list Z) : list Z :=
  match s with
  | c :: s' => if py_isspace c then py_lstrip s' else s
  | [] => []
  end.

Fixpoint py_rstrip (s : list Z) : list Z :=
  match s with
  | c :: s' =>
      match py_rstrip s' with
      | [] => if py_isspace c then [] else [c]
      | r => c :: r
      end
  | [] => []
  end.

Definition py_strip (s : list Z) : list Z := py_rstrip (py_lstrip s).

(** [s.split(sep)] for a separator of one character. *)
Fixpoint py_split (sep : Z) (s : list Z) : list (list Z) :=
  match s with
  | [] => [[]]
  | c :: s' =>
      if c =? sep then [] :: py_split sep s'
      else match py_split sep s' with
           | w :: ws => (c :: w) :: ws
           | [] => [[c]]
           end
  end.

(** [[msg for msg in text.strip().split('\n') if msg.strip()]]: lines
    350-351 of the motion node, lines 281-286 of the planner. *)
Definition split_messages (text : list Z) : list (list Z) :=
  filter (λ msg, py_strip msg ≠ []) (py_split NEWLINE (py_strip text)).

(** What [client_socket.recv(1024)] and the decoding yield: a text (empty
    when no byte came), a [socket.timeout], or another exception. *)
Inductive bot_recv : Type :=
| Response (text : list Z)
| SocketTimeout
| OtherException.

Record network_manager : Type := NetworkManager { is_connected : bool }.

Definition receive_data (nm : network_manager) (r : bot_recv)
  : list (list Z) * network_manager :=
  match r with
  | Response text =>
      if bool_decide (text ≠ []) then (split_messages text, nm)
      else ([], nm)
  | SocketTimeout => ([], nm)
  | OtherException => ([], NetworkManager false)
  end.

End Framing.

(** * Vocabulary of the specification *)

(** ** What a path is

    The words of the specification: a cell is pathable when it lies on the
    grid and holds the traversable marker 0; consecutive cells of a path
    differ by exactly one row or exactly one column. *)

Definition grid_rows (g : grid) : Z := Z.of_nat (length g).
Definition grid_cols (g : grid) : Z := Z.of_nat (length (default [] (g !! 0%nat))).

Definition rectangular (g : grid) : Prop :=
  g ≠ [] ∧ Forall (λ row, Z.of_nat (length row) = grid_cols g) g.

Definition in_grid (g : grid) (n : cell) : Prop :=
  0 ≤ n.1 < grid_rows g ∧ 0 ≤ n.2 < grid_cols g.

Definition pathable (g : grid) (n : cell) : Prop :=
  in_grid g n ∧ grid_get g n.1 n.2 = Ret 0.

Definition unit_step (a b : cell) : Prop :=
  (a.1 = b.1 ∧ Z.abs (b.2 - a.2) = 1) ∨ (a.2 = b.2 ∧ Z.abs (b.1 - a.1) = 1).

Definition valid_path (g : grid) (s e : cell) (p : list cell) : Prop :=
  head p = Some s ∧ last p = Some e ∧ Forall (pathable g) p ∧
  ∀ (i : nat) a b, p !! i = Some a → p !! S i = Some b → unit_step a b.

Definition reachable (g : grid) (s e : cell) : Prop :=
  ∃ p, valid_path g s e p.

(** The same notion built one step at a time, for inductions. *)
Inductive is_path (g : grid) : cell → cell → list cell → Prop :=
| is_path_one n : pathable g n → is_path g n n [n]
| is_path_cons a b e p :
    pathable g a → unit_step a b → is_path g b e p → is_path g a e (a :: p).

Definition pathableb (g : grid) (n : cell) : bool :=
  match valid_node g (grid_rows g) (grid_cols g) n with
  | Ret b => b
  | _ => false
  end.

Definition shift (u : cell) (d : Z * Z) : cell := (u.1 + d.1, u.2 + d.2).

(** The pathable cells next to [u], in the order of [DIRECTIONS]. *)
Definition nbr_cells (g : grid) (u : cell) : list cell :=
  filter (λ v, pathableb g v = true) (shift u <$> DIRECTIONS).

Definition prio_le (a b : pq_entry) : Prop := priority a ≤ priority b.

(** A grid of one row whose two ends are not connected. *)
Definition split_row : grid := [[0; 1; 0]].

(** ** The invariant of the search loop

    [search_inv L done s] relates the locals [s] of the loop to the cells
    [done] that were taken off the queue so far; [L] is the cost of the
    last of them.  With edges of cost 1 the queue only ever holds the costs [L]
    and [L + 1], so that a new entry goes to its end and no cost is ever
    lowered. *)

Section SearchInvariant.
Variable g : grid.
Variables start_node end_node : cell.

Record search_inv (L : Z) (done : list cell) (s : search) : Prop := Inv {
  inv_sorted : StronglySorted prio_le (pq s);
  inv_prio : Forall (λ e, L ≤ priority e ≤ L + 1 ∧
                          cost_so_far s !! item e = Some (priority e)) (pq s);
  inv_cost : ∀ n c, cost_so_far s !! n = Some c → 0 ≤ c ≤ L + 1;
  inv_nodup : NoDup (done ++ (item <$> pq s));
  inv_dom : ∀ n, is_Some (cost_so_far s !! n) ↔ n ∈ done ++ (item <$> pq s);
  inv_pathable : ∀ n, is_Some (cost_so_far s !! n) → pathable g n;
  inv_start_cost : cost_so_far s !! start_node = Some 0;
  inv_start_from : came_from s !! start_node = Some None;
  inv_parent : ∀ n c, cost_so_far s !! n = Some c → n ≠ start_node →
    ∃ m, came_from s !! n = Some (Some m) ∧
         cost_so_far s !! m = Some (c - 1) ∧ unit_step m n ;
  inv_done_ne : ∀ u, u ∈ done → u ≠ end_node;
  inv_level : 0 ≤ L ≤ Z.of_nat (length done)
}.

(** Every pathable cell next to a cell of [X] has a cost, at most one more. *)
Definition closed (X : list cell) (cs : gmap cell Z) : Prop :=
  ∀ u v, u ∈ X → unit_step u v → pathable g v →
    ∃ cu cv, cs !! u = Some cu ∧ cs !! v = Some cv ∧ cv ≤ cu + 1.

Definition costs_kept (cs cs' : gmap cell Z) : Prop :=
  ∀ n c, cs !! n = Some c → cs' !! n = Some c.

Definition cell_count : nat := (length g * length (default [] (g !! 0%nat)))%nat.

(** What holds when the loop is left. *)
Definition loop_post (found : bool) (s' : search) : Prop :=
  if found then
    ∃ L done e q,
      search_inv L done (Search (e :: q) (came_from s') (cost_so_far s')) ∧
      closed done (cost_so_far s') ∧ item e = end_node
  else
    ∃ L done, search_inv L done s' ∧ closed done (cost_so_far s') ∧ pq s' = [].

End SearchInvariant.

(** ** The cursor and the action *)

(** The cursor points at the cell the planner believes the robot is on. *)
Definition cursor_synced (st : planner) : Prop :=
  planned_path st = [] ∨
  ∃ c, current_robot_grid_pos_path st = Some c ∧
       0 ≤ current_path_index st ∧
       planned_path st !! Z.to_nat (current_path_index st) = Some c.

(** The planned path, when there is one, is a shortest path on [grid_map]
    that ends at the goal. *)
Definition route_to_goal (st : planner) : Prop :=
  planned_path st = [] ∨
  ∃ s gl, goal_grid_pos st = Some gl ∧
          is_path grid_map s gl (planned_path st) ∧
          ∀ q, is_path grid_map s gl q →
               (length (planned_path st) ≤ length q)%nat.

(** [cur] and [nxt] are the segment of the path at the place [i]: two
    consecutive cells, a unit step apart. *)
Definition path_segment (p : list cell) (i : Z) (cur nxt : cell) : Prop :=
  0 ≤ i ∧ p !! Z.to_nat i = Some cur ∧ p !! Z.to_nat (i + 1) = Some nxt ∧
  unit_step cur nxt.

Section ActionSpec.
Context {pf : PyFloat}.

(** The heading of a step: towards higher columns 0, towards lower columns
    pi, towards higher rows pi/2, towards lower rows -pi/2. *)
Definition segment_heading (cur nxt : cell) : flt :=
  if bool_decide (nxt = (cur.1, cur.2 + 1)) then f_of_Z 0
  else if bool_decide (nxt = (cur.1, cur.2 - 1)) then f_pi
  else if bool_decide (nxt = (cur.1 + 1, cur.2)) then f_div f_pi (f_of_Z 2)
  else f_div (f_neg f_pi) (f_of_Z 2).

(** [atan2(sin x, cos x)]: the angle brought into the range from -pi to
    pi, or the exception of the sine or the cosine. *)
Definition normalize_angle (x : flt) : result flt :=
  sin_x ← f_sin x; cos_x ← f_cos x; f_atan2 sin_x cos_x.

(** The heading of the segment minus the normalised heading of the robot,
    normalised. *)
Definition angular_error (cur nxt : cell) (theta : flt) : result flt :=
  theta_norm ← normalize_angle theta;
  normalize_angle (f_sub (segment_heading cur nxt) theta_norm).

Definition action_for_error (err : flt) : string :=
  if f_lt (f_radians (f_of_Z 40)) (f_abs err)
  then if f_lt (f_of_Z 0) err then "turn_left" else "turn_right"
  else "forward".

End ActionSpec.

Definition PROTOCOL_ACTIONS : list string :=
  ["forward"; "turn_left"; "turn_right"; "stop"]%string.

(** * Concrete floats, to run the models on inputs *)

(** [n / d] rounded to the nearest integer, ties to the even one
    ([0 ≤ n], [0 < d]). *)
Definition round_half_even (n d : Z) : Z :=
  let q := n / d in
  let r := n mod d in
  if 2 * r <? d then q
  else if d <? 2 * r then q + 1
  else if Z.even q then q else q + 1.

(** [round(x)] of Python on a binary64 float. *)
Definition binary64_round (x : float) : result Z :=
  match Prim2SF x with
  | S754_zero _ => Ret 0
  | S754_finite s m e =>
      let q := if 0 <=? e then Z.pos m * 2 ^ e
               else round_half_even (Z.pos m) (2 ^ (- e)) in
      Ret (if s then - q else q)
  | S754_infinity _ => Raise OverflowError
  | S754_nan => Raise ValueError
  end.

(** [fmod] of C: the remainder has the sign of [x] and is exact. *)
Definition binary64_fmod (x y : float) : float :=
  match Prim2SF x, Prim2SF y with
  | S754_finite sx mx ex, S754_finite _ my ey =>
      let e := Z.min ex ey in
      match (Z.pos mx * 2 ^ (ex - e)) mod (Z.pos my * 2 ^ (ey - e)) with
      | Z.pos r => SF2Prim (S754_finite sx r e)
      | _ => SF2Prim (S754_zero sx)
      end
  | S754_zero _, S754_finite _ _ _ => x
  | S754_zero _, S754_infinity _ => x
  | S754_finite _ _ _, S754_infinity _ => x
  | _, _ => nan
  end.

(** [x % y] of Python on floats: the remainder takes the sign of [y]. *)
Definition binary64_rem (x y : float) : float :=
  let m := binary64_fmod x y in
  if is_zero m then (if (y <? 0)%float then neg_zero else zero)
  else if xorb (y <? 0)%float (m <? 0)%float then (m + y)%float
  else m.

#[global] Instance binary64_math : BotMath :=
  {| py_round := binary64_round; py_fmod := binary64_rem |}.

Definition float_of_Z (z : Z) : float :=
  match z with
  | Z0 => zero
  | Z.pos p => SF2Prim (S754_finite false p 0)
  | Z.neg p => SF2Prim (S754_finite true p 0)
  end.

(** [math.sin], [math.cos] and [math.atan2] on binary64, at the arguments
    where IEEE 754 and Annex F of the C standard fix the result: the sine
    of a zero is that zero, the cosine of a zero is 1, both raise
    [ValueError] at an infinity (a domain error) and give a NaN at a NaN;
    the arc tangent of a zero over a positive number is that zero, and a
    NaN if either argument is one.  At the other arguments the result
    depends on the C library, and the model gives none. *)
Definition binary64_sin (x : float) : result float :=
  match Prim2SF x with
  | S754_zero _ => Ret x
  | S754_infinity _ => Raise ValueError
  | S754_nan => Ret nan
  | S754_finite _ _ _ => OutOfFuel
  end.

Definition binary64_cos (x : float) : result float :=
  match Prim2SF x with
  | S754_zero _ => Ret 1%float
  | S754_infinity _ => Raise ValueError
  | S754_nan => Ret nan
  | S754_finite _ _ _ => OutOfFuel
  end.

Definition binary64_atan2 (y x : float) : result float :=
  match Prim2SF y, Prim2SF x with
  | S754_nan, _ => Ret nan
  | _, S754_nan => Ret nan
  | S754_zero _, S754_finite false _ _ => Ret y
  | S754_zero _, S754_infinity false => Ret y
  | _, _ => OutOfFuel
  end.

#[global] Instance binary64_float : PyFloat := {|
  flt := float;
  f_of_Z := float_of_Z;
  f_pi := MATH_PI;
  f_neg := PrimFloat.opp;
  f_sub := PrimFloat.sub;
  f_div := PrimFloat.div;
  f_abs := PrimFloat.abs;
  f_lt := PrimFloat.ltb;
  f_sin := binary64_sin;
  f_cos := binary64_cos;
  f_atan2 := binary64_atan2;
  f_radians := λ x, (x * (MATH_PI / 180))%float
|}.

(** * Concrete inputs *)

(** The scenario of the specification: from the initial cell to the goal. *)
Definition scenario_path : list cell :=
  [(3, 20); (4, 20); (5, 20); (6, 20); (7, 20); (7, 19); (7, 18); (7, 17);
   (7, 16); (7, 15); (7, 14); (7, 13); (7, 12); (7, 11); (7, 10); (8, 10);
   (9, 10); (10, 10); (11, 10); (12, 10); (12, 9); (12, 8); (12, 7); (12, 6);
   (12, 5); (12, 4); (13, 4); (14, 4)].

(** A first status message from the cell [(2, 0)] with the goal [(2, 2)],
    received right after the connection is accepted. *)
Definition first_status : status (pf := binary64_float) :=
  Status (2, 0) (2, 2) 0%float [0; 1; 0].

Definition after_first_status : server :=
  loop_iteration (LoopInput 0 true (RecvData [StatusMessage first_status]))
    initial_server.

(** The robot is then reported on the white cell [(3, 1)], two seconds
    later. *)
Definition off_line_status : status (pf := binary64_float) :=
  Status (3, 1) (2, 2) 0%float [0; 0; 0].

Definition before_failed_replan : planner :=
  update_belief off_line_status (globals after_first_status).

(** The robot reports the goal cell as its position. *)
Definition at_goal_status : status (pf := binary64_float) :=
  Status (2, 2) (2, 2) 0%float [0; 1; 0].

(** The planner on the last segment of a path, the robot believed on
    [(2, 1)], and a status message that reports the robot on the goal with
    an infinite heading. *)
Definition on_last_segment : planner :=
  Planner (Some (2, 1)) (Some (2, 1)) (Some (2, 2)) [(2, 1); (2, 2)] 0 false 0.


(** The robot at the initial cell [(3, 20)], heading down the grid, with
    the front and the right sensor over the threshold, sensed twice. *)
Definition initial_pose : pose := Pose 1.069802 0.15297 (MATH_PI / 2).

Definition sense_twice : list detector_op :=
  [Sense initial_pose [200; 50; 200]%float; Report;
   Sense initial_pose [200; 50; 200]%float; Report].

(** ** More of the motion node on concrete floats and texts *)

(** [CoordinateConverter.grid_to_world_center]: the multiplication turns
    the integer into a float, exactly for the indices of a grid. *)
Definition grid_to_world_center (row col : Z) : float * float :=
  let world_x := (GRID_ORIGIN_X + float_of_Z col * GRID_CELL_SIZE)%float in
  let world_z := (GRID_ORIGIN_Z + float_of_Z row * GRID_CELL_SIZE)%float in
  (world_x, world_z).

(** The whitespace of CPython's [str.strip]. *)
Definition cpython_isspace (c : Z) : bool :=
  ((9 <=? c) && (c <=? 13)) || ((28 <=? c) && (c <=? 32))
  || (c =? 133) || (c =? 160) || (c =? 5760)
  || ((8192 <=? c) && (c <=? 8202))
  || (c =? 8232) || (c =? 8233) || (c =? 8239) || (c =? 8287) || (c =? 12288).

(** The whitespace of MicroPython's [str.strip]. *)
Definition micropython_isspace (c : Z) : bool :=
  ((9 <=? c) && (c <=? 13)) || (c =? 32).

(** Two commands as the planner sends them, each followed by a newline:
    [{"action": "stop"}] and [{}]. *)
Definition two_messages : list (list Z) :=
  [[123; 34; 97; 99; 116; 105; 111; 110; 34; 58; 32; 34; 115; 116; 111; 112;
    34; 125];
   [123; 125]].

(** * Results *)

(** ** The search: [dijkstra] *)

(** *** Paths *)

Lemma is_path_valid g s e p : is_path g s e p → valid_path g s e p.
Proof.
  induction 1 as [n Hn | a b e p Ha Hab Hp (Hh & Hl & Hf & Hs)].
  - repeat split; [by constructor; [|constructor] |].
    intros [|i] a b ? ?; simplify_eq/=.
  - repeat split; simpl.
    + destruct p as [|x p]; [done|]. by rewrite last_cons_cons.
    + by constructor.
    + intros [|i] x y; simpl.
      * intros [= <-] Hy. destruct p as [|b' p]; simplify_eq/=. done.
      * apply Hs.
Qed.

Lemma valid_path_is_path g s e p : valid_path g s e p → is_path g s e p.
Proof.
  revert s. induction p as [|a p IH]; intros s (Hh & Hl & Hf & Hs); [done|].
  simpl in Hh. injection Hh as ->.
  apply Forall_cons in Hf as [Hs0 Hf].
  destruct p as [|b p].
  - simpl in Hl. injection Hl as <-. by constructor.
  - apply is_path_cons with b; [done| by apply (Hs 0%nat) |].
    apply IH. repeat split; [by rewrite last_cons_cons in Hl | done |].
    intros i x y Hx Hy. by apply (Hs (S i)).
Qed.

Lemma is_path_start g s e p : is_path g s e p → pathable g s.
Proof. by destruct 1. Qed.

Lemma is_path_snoc g s m n p :
  is_path g s m p → unit_step m n → pathable g n → is_path g s n (p ++ [n]).
Proof.
  induction 1; intros Hstep Hn; simpl.
  - eapply is_path_cons; [done..|]. by constructor.
  - eapply is_path_cons; [done..|]. auto.
Qed.

Lemma is_path_length g s e p : is_path g s e p → (0 < length p)%nat.
Proof. destruct 1; simpl; lia. Qed.

Lemma is_path_take g s e p (i : nat) x :
  is_path g s e p → p !! i = Some x → is_path g s x (take (S i) p).
Proof.
  intros Hp. revert i. induction Hp as [n Hn | a b e p Ha Hab Hp IH]; intros i.
  - destruct i as [|i]; simpl; [|done]. intros [= <-]. by constructor.
  - destruct i as [|i]; simpl.
    + intros [= <-]. by constructor.
    + intros Hx. apply is_path_cons with b; [done..|]. by apply IH.
Qed.

(** On a shortest path the goal comes last only. *)
Lemma shortest_path_end_last g s e p (i : nat) :
  is_path g s e p →
  (∀ q, is_path g s e q → (length p ≤ length q)%nat) →
  p !! i = Some e → S i = length p.
Proof.
  intros Hp Hmin Hi. apply lookup_lt_Some in Hi as Hlt.
  pose proof (Hmin _ (is_path_take _ _ _ _ _ _ Hp Hi)) as Hle.
  rewrite length_take in Hle. lia.
Qed.

(** *** The priority queue on sorted queues *)

Lemma sort_by_priority_sorted q :
  StronglySorted prio_le q → sort_by_priority q = q.
Proof.
  induction 1 as [|x q Hq IH Hx]; [done|].
  unfold sort_by_priority in *. simpl. rewrite IH.
  destruct q as [|y q]; [done|]. simpl.
  apply Forall_cons in Hx as [Hxy _]. unfold prio_le in Hxy.
  by rewrite (proj2 (Z.leb_le _ _) Hxy).
Qed.

Lemma pq_put_last q it pr :
  StronglySorted prio_le q →
  Forall (λ e, priority e ≤ pr) q →
  pq_put q it pr = q ++ [PqEntry it pr] ∧
  StronglySorted prio_le (q ++ [PqEntry it pr]).
Proof.
  intros Hq Hle.
  assert (StronglySorted prio_le (q ++ [PqEntry it pr])) as Hs.
  { apply StronglySorted_app_2; [| done | repeat constructor].
    intros x y Hx Hy%list_elem_of_singleton. subst y.
    rewrite Forall_forall in Hle. by apply Hle. }
  split; [|done]. by apply sort_by_priority_sorted.
Qed.

(** *** Cells of a rectangular grid *)

Section Rectangular.
Variable g : grid.
Hypothesis Hrect : rectangular g.

Lemma grid_get_in_grid n : in_grid g n → ∃ v, grid_get g n.1 n.2 = Ret v.
Proof.
  destruct Hrect as [_ Hall]. intros [[Hr0 Hr1] [Hc0 Hc1]].
  unfold grid_rows in Hr1. unfold grid_get, py_index.
  destruct (Z.ltb_spec n.1 0) as [|_]; [lia|].
  destruct (Z.ltb_spec n.1 0) as [|_]; [lia|].
  destruct (lookup_lt_is_Some_2 g (Z.to_nat n.1)) as [row Hrow]; [lia|].
  rewrite Hrow. simpl.
  rewrite Forall_forall in Hall.
  pose proof (Hall row (list_elem_of_lookup_2 _ _ _ Hrow)) as Hlen.
  destruct (Z.ltb_spec n.2 0) as [|_]; [lia|].
  destruct (Z.ltb_spec n.2 0) as [|_]; [lia|].
  destruct (lookup_lt_is_Some_2 row (Z.to_nat n.2)) as [v Hv]; [lia|].
  rewrite Hv. eauto.
Qed.

Lemma valid_node_pathableb n :
  valid_node g (grid_rows g) (grid_cols g) n = Ret (pathableb g n).
Proof.
  unfold pathableb, valid_node.
  destruct (_ && _) eqn:Hb; [|done].
  destruct (grid_get_in_grid n) as [v Hv]; [|by rewrite Hv].
  unfold in_grid. repeat (apply andb_prop in Hb as [Hb ?]). lia.
Qed.

Lemma pathableb_spec n : pathableb g n = true ↔ pathable g n.
Proof.
  unfold pathableb, valid_node, pathable, in_grid.
  destruct (_ && _) eqn:Hb.
  - repeat (apply andb_prop in Hb as [Hb ?]).
    destruct (grid_get g n.1 n.2) as [v| |] eqn:Hv; simpl.
    + split.
      * intros ->%Z.eqb_eq. split; [lia|done].
      * intros [_ [= ->]]. done.
    + split; [done|]. by intros [_ ?].
    + split; [done|]. by intros [_ ?].
  - split; [done|]. intros [[[] []] _].
    rewrite !andb_false_iff in Hb. lia.
Qed.

Lemma neighbors_loop_spec dirs u acc :
  neighbors_loop dirs u.1 u.2 (grid_rows g) (grid_cols g) g acc
  = Ret (acc ++ ((λ v, (v, 1)) <$>
           filter (λ v, pathableb g v = true) (shift u <$> dirs))).
Proof.
  revert acc. induction dirs as [|[dr dc] dirs IH]; intros acc; simpl.
  { by rewrite app_nil_r. }
  rewrite filter_cons.
  pose proof (valid_node_pathableb (shift u (dr, dc))) as Hv.
  unfold valid_node in Hv. simpl in Hv.
  destruct (_ && _) eqn:Hb.
  - destruct (grid_get g (u.1 + dr) (u.2 + dc)) as [v| |]; simpl in *;
      [|done..].
    injection Hv as Hv.
    case_decide as Hd; rewrite <- Hv in Hd; destruct (v =? 0); try done.
    rewrite IH. by rewrite <- app_assoc.
  - injection Hv as Hv. case_decide as Hd; [congruence|]. apply IH.
Qed.

Lemma get_valid_neighbors_spec u :
  get_valid_neighbors u.1 u.2 (grid_rows g) (grid_cols g) g
  = Ret ((λ v, (v, 1)) <$> nbr_cells g u).
Proof. unfold get_valid_neighbors. by rewrite neighbors_loop_spec. Qed.

Lemma elem_of_nbr_cells u v :
  v ∈ nbr_cells g u ↔ unit_step u v ∧ pathable g v.
Proof.
  unfold nbr_cells. rewrite list_elem_of_filter, pathableb_spec.
  rewrite list_elem_of_fmap. unfold DIRECTIONS, unit_step, shift.
  destruct u as [r c], v as [r' c']. simpl. split.
  - intros [Hp (d & [= -> ->] & Hd)]. split; [|done].
    rewrite !elem_of_cons, elem_of_nil in Hd.
    destruct Hd as [->|[->|[->|[->|[]]]]]; simpl; lia.
  - intros [Hs Hp]. split; [done|].
    exists (r' - r, c' - c). simpl. split; [f_equal; lia|].
    rewrite !elem_of_cons.
    destruct Hs as [[Heq Hs]|[Heq Hs]];
      destruct (Z.abs_spec (c' - c)), (Z.abs_spec (r' - r));
      first [ left; f_equal; lia
            | right; left; f_equal; lia
            | right; right; left; f_equal; lia
            | right; right; right; left; f_equal; lia ].
Qed.

(** A duplicate-free list of cells of the grid is no longer than the
    grid has cells. *)
Lemma cells_length_bound (l : list cell) :
  NoDup l → Forall (in_grid g) l →
  (length l ≤ length g * length (default [] (g !! 0%nat)))%nat.
Proof.
  intros Hnd Hin.
  set (all := list_prod (seqZ 0 (grid_rows g)) (seqZ 0 (grid_cols g))).
  assert (l ⊆+ all) as Hsub.
  { apply NoDup_submseteq; [done|]. intros [r c] Hx.
    rewrite Forall_forall in Hin. apply Hin in Hx as [? ?]. simpl in *.
    apply list_elem_of_In, in_prod; apply list_elem_of_In, elem_of_seqZ; lia. }
  apply submseteq_length in Hsub. unfold all in Hsub.
  rewrite length_prod, !length_seqZ in Hsub.
  unfold grid_rows, grid_cols in Hsub. lia.
Qed.
End Rectangular.

(** *** The search loop *)

Section SearchLoop.
Variable g : grid.
Variables start_node end_node : cell.
Hypothesis Hrect : rectangular g.

Local Abbreviation inv := (search_inv g start_node end_node).
Local Abbreviation closed := (closed g).
Local Abbreviation cell_count := (cell_count g).
Local Abbreviation loop_post := (loop_post g start_node end_node).

Lemma inv_relax_fresh p done s u v :
  inv p done s →
  cost_so_far s !! u = Some p →
  cost_so_far s !! v = None →
  unit_step u v → pathable g v →
  inv p done (Search (pq s ++ [PqEntry v (p + 1)])
                     (<[v := Some u]> (came_from s))
                     (<[v := p + 1]> (cost_so_far s))).
Proof.
  intros [] Hu Hv Hstep Hpath.
  assert (v ≠ start_node) as Hvs by congruence.
  assert (v ∉ done ++ (item <$> pq s)) as Hnin.
  { rewrite <- inv_dom0, Hv. by intros []. }
  split; simpl.
  - apply StronglySorted_app_2; [|done|repeat constructor].
    intros x y Hx ->%list_elem_of_singleton.
    rewrite Forall_forall in inv_prio0. unfold prio_le. simpl.
    apply inv_prio0 in Hx. lia.
  - apply Forall_app. split.
    + eapply Forall_impl; [done|]. intros e [? He]. split; [done|].
      simpl. rewrite lookup_insert_ne; [done|]. congruence.
    + repeat constructor; simpl; [lia..|]. by rewrite lookup_insert_eq.
  - intros n c. rewrite lookup_insert. case_decide.
    + intros [= <-]. lia.
    + apply inv_cost0.
  - rewrite fmap_app, app_assoc. simpl. apply NoDup_app.
    split; [done|]. split; [|apply NoDup_singleton].
    intros x Hx ->%list_elem_of_singleton. done.
  - intros n. rewrite fmap_app, app_assoc, elem_of_app. simpl.
    rewrite list_elem_of_singleton, <- inv_dom0, lookup_insert.
    case_decide; subst.
    + split; [by right|]. eauto.
    + split; [by left | intros [?|?]; [done|congruence]].
  - intros n. rewrite lookup_insert. case_decide; subst; [done|].
    apply inv_pathable0.
  - by rewrite lookup_insert_ne.
  - by rewrite lookup_insert_ne.
  - intros n c. rewrite !lookup_insert. case_decide; subst.
    + intros [= <-] _. exists u. split; [done|].
      rewrite lookup_insert_ne by congruence.
      split; [|done]. rewrite Hu. f_equal. lia.
    + intros Hn Hns. destruct (inv_parent0 n c Hn Hns) as (m & ? & Hm & ?).
      exists m. split; [done|]. split; [|done].
      rewrite lookup_insert_ne; [done|]. congruence.
  - done.
  - done.
Qed.

Lemma relax_spec p done u nbrs s :
  inv p done s →
  cost_so_far s !! u = Some p →
  Forall (λ vc, vc.2 = 1 ∧ unit_step u vc.1 ∧ pathable g vc.1) nbrs →
  ∃ s', relax u nbrs s = Ret s' ∧
        inv p done s' ∧
        costs_kept (cost_so_far s) (cost_so_far s') ∧
        Forall (λ vc, ∃ cv, cost_so_far s' !! vc.1 = Some cv ∧ cv ≤ p + 1) nbrs.
Proof.
  intros Hinv Hu Hvs. revert s Hinv Hu.
  induction Hvs as [|[v c] nbrs (Hc & Hstep & Hpath) _ IH];
    intros s Hinv Hu; simpl in *.
  { exists s. split; [done|]. split; [done|]. split; [by intros ??|constructor]. }
  subst c. rewrite Hu.
  destruct (cost_so_far s !! v) as [old|] eqn:Hv.
  - pose proof (inv_cost _ _ _ _ _ _ Hinv _ _ Hv) as Hold.
    destruct (Z.ltb_spec (p + 1) old) as [|_]; [lia|].
    destruct (IH s Hinv Hu) as (s' & Hr & Hinv' & Hkept & Hall).
    exists s'. split; [done|]. split; [done|]. split; [done|].
    constructor; [|done]. exists old. split; [by apply Hkept|lia].
  - destruct (pq_put_last (pq s) v (p + 1)) as [-> _].
    { by destruct Hinv. }
    { destruct Hinv. eapply Forall_impl; [done|]. simpl. lia. }
    pose proof (inv_relax_fresh _ _ _ _ _ Hinv Hu Hv Hstep Hpath) as Hinv2.
    destruct (IH _ Hinv2) as (s' & Hr & Hinv' & Hkept & Hall).
    { simpl. rewrite lookup_insert_ne; [done|]. congruence. }
    simpl in Hkept. exists s'. split; [done|]. split; [done|]. split.
    + intros n c Hn. apply Hkept. rewrite lookup_insert_ne; [done|]. congruence.
    + constructor; [|done]. exists (p + 1). split; [|lia].
      apply Hkept. by rewrite lookup_insert_eq.
Qed.

Lemma inv_done_bound L done s :
  inv L done s → (length (done ++ (item <$> pq s)) ≤ cell_count)%nat.
Proof.
  intros Hinv. apply (cells_length_bound g); [by destruct Hinv|].
  apply Forall_forall. intros n Hn.
  apply (inv_dom _ _ _ _ _ _ Hinv) in Hn.
  by apply (inv_pathable _ _ _ _ _ _ Hinv) in Hn as [? _].
Qed.

(** Taking the head off the queue keeps the invariant, one level up. *)
Lemma inv_pop L done e q cf cs :
  inv L done (Search (e :: q) cf cs) →
  item e ≠ end_node →
  inv (priority e) (done ++ [item e]) (Search q cf cs).
Proof.
  intros [] Hne. simpl in *.
  apply StronglySorted_cons in inv_sorted0 as [Hhd Hq].
  apply Forall_cons in inv_prio0 as [[He _] Hprio].
  split; simpl.
  - done.
  - rewrite Forall_forall in Hhd, Hprio. apply Forall_forall.
    intros e' He'. specialize (Hhd _ He'). specialize (Hprio _ He').
    unfold prio_le in Hhd. split; [lia|tauto].
  - intros n c Hn. apply inv_cost0 in Hn. lia.
  - by rewrite <- app_assoc.
  - intros n. by rewrite <- app_assoc.
  - done.
  - done.
  - done.
  - done.
  - intros u [Hu| ->%list_elem_of_singleton]%elem_of_app; [auto|done].
  - rewrite length_app. simpl. lia.
Qed.

Lemma search_loop_spec fuel : ∀ L done s,
  inv L done s → closed done (cost_so_far s) →
  (cell_count < fuel + length done)%nat →
  ∃ found s',
    search_loop fuel (grid_rows g) (grid_cols g) g end_node s = Ret (found, s') ∧
    loop_post found s'.
Proof.
  induction fuel as [|fuel IH]; intros L done s Hinv Hcl Hfuel.
  { pose proof (inv_done_bound _ _ _ Hinv) as Hb.
    rewrite length_app in Hb. lia. }
  destruct s as [[|e q] cf cs]; simpl in *.
  { exists false, (Search [] cf cs). split; [done|]. by exists L, done. }
  replace (pq_is_empty (e :: q)) with false by done.
  case_decide as Hend.
  { exists true, (Search q cf cs). split; [done|]. by exists L, done, e, q. }
  pose proof (inv_pop _ _ _ _ _ _ Hinv Hend) as Hinv1.
  rewrite (get_valid_neighbors_spec g Hrect (item e)). simpl.
  assert (cs !! item e = Some (priority e)) as Hcost.
  { destruct Hinv. simpl in *. by apply Forall_cons in inv_prio0 as [[_ ?] _]. }
  destruct (relax_spec (priority e) (done ++ [item e]) (item e)
              ((λ v, (v, 1)) <$> nbr_cells g (item e)) (Search q cf cs))
    as (s2 & -> & Hinv2 & Hkept & Hall); [done|done| |].
  { apply Forall_fmap, Forall_forall. intros v Hv. simpl.
    by apply elem_of_nbr_cells in Hv. }
  simpl in *. apply (IH (priority e) (done ++ [item e])); [done| |].
  - intros u v [Hu| ->%list_elem_of_singleton]%elem_of_app Hstep Hpath.
    + destruct (Hcl u v Hu Hstep Hpath) as (cu & cv & ? & ? & ?).
      exists cu, cv. auto.
    + rewrite Forall_fmap, Forall_forall in Hall.
      destruct (Hall v) as (cv & ? & ?); [by apply elem_of_nbr_cells|].
      exists (priority e), cv. auto.
  - rewrite length_app. simpl. lia.
Qed.

(** Towards minimality: along a path that starts at a cell of cost [ca] and
    is too short to reach the cost [bound] at the head of the queue, costs
    exist and grow by at most one per step. *)
Lemma walk_costs L done s bound a b q :
  inv L done s → closed done (cost_so_far s) →
  Forall (λ e, bound ≤ priority e) (pq s) →
  is_path g a b q →
  ∀ ca, cost_so_far s !! a = Some ca →
    ca + Z.of_nat (length q) - 1 < bound →
    ∃ cb, cost_so_far s !! b = Some cb ∧ cb ≤ ca + Z.of_nat (length q) - 1.
Proof.
  intros Hinv Hcl Hhead. induction 1 as [n Hn | a a' b q Ha Hstep Hq IH];
    intros ca Hca Hlt; simpl in *.
  { exists ca. split; [done|lia]. }
  assert (a ∈ done) as Hdone.
  { assert (a ∈ done ++ (item <$> pq s)) as [?|Hin]%elem_of_app; [|done|].
    { apply (inv_dom _ _ _ _ _ _ Hinv). eauto. }
    apply list_elem_of_fmap in Hin as (e & -> & He).
    pose proof (inv_prio _ _ _ _ _ _ Hinv) as Hprio.
    rewrite Forall_forall in Hprio, Hhead.
    apply Hprio in He as Hpe. apply Hhead in He. destruct Hpe as [_ Hpe].
    pose proof (is_path_length _ _ _ _ Hq). simplify_eq. lia. }
  destruct (Hcl a a' Hdone Hstep (is_path_start _ _ _ _ Hq))
    as (cu & cv & Hcu & Hcv & Hle).
  simplify_eq. destruct (IH cv Hcv) as (cb & ? & ?); [lia|].
  exists cb. split; [done|lia].
Qed.

Lemma found_minimal L done e q cf cs p :
  inv L done (Search (e :: q) cf cs) → closed done cs →
  is_path g start_node (item e) p →
  priority e + 1 ≤ Z.of_nat (length p).
Proof.
  intros Hinv Hcl Hp.
  destruct (Z.le_gt_cases (priority e + 1) (Z.of_nat (length p))) as [|Hlt];
    [done|exfalso].
  assert (Forall (λ e', priority e ≤ priority e') (e :: q)) as Hhead.
  { destruct Hinv. simpl in *.
    apply StronglySorted_cons in inv_sorted0 as [Hhd _].
    constructor; [lia|]. eapply Forall_impl; [done|]. unfold prio_le. done. }
  destruct (walk_costs L done _ (priority e) _ _ _ Hinv Hcl Hhead Hp 0)
    as (cb & Hcb & Hle).
  - by destruct Hinv.
  - lia.
  - destruct Hinv. simpl in *. apply Forall_cons in inv_prio0 as [[_ He] _].
    simplify_eq. lia.
Qed.

Lemma found_cost_bound L done e q cf cs :
  inv L done (Search (e :: q) cf cs) →
  0 ≤ priority e ≤ Z.of_nat cell_count.
Proof.
  intros Hinv. pose proof (inv_done_bound _ _ _ Hinv) as Hb.
  rewrite length_app in Hb. destruct Hinv. simpl in *.
  apply Forall_cons in inv_prio0 as [[? _] _]. lia.
Qed.

Lemma walk_done L done s a b q :
  inv L done s → closed done (cost_so_far s) → pq s = [] →
  is_path g a b q → a ∈ done → b ∈ done.
Proof.
  intros Hinv Hcl Hq. induction 1 as [n Hn | a a' b q Ha Hstep Hp IH]; [done|].
  intros Hs. apply IH.
  destruct (Hcl a a' Hs Hstep (is_path_start _ _ _ _ Hp))
    as (_ & cv & _ & Hcv & _).
  pose proof (proj1 (inv_dom _ _ _ _ _ _ Hinv a')) as Hd.
  rewrite Hq, app_nil_r in Hd. apply Hd. eauto.
Qed.

Lemma not_found_unreachable L done s p :
  inv L done s → closed done (cost_so_far s) → pq s = [] →
  ¬ is_path g start_node end_node p.
Proof.
  intros Hinv Hcl Hq Hp.
  assert (start_node ∈ done) as Hs.
  { pose proof (proj1 (inv_dom _ _ _ _ _ _ Hinv start_node)) as Hd.
    rewrite Hq, app_nil_r in Hd. apply Hd.
    rewrite (inv_start_cost _ _ _ _ _ _ Hinv). eauto. }
  pose proof (walk_done _ _ _ _ _ _ Hinv Hcl Hq Hp Hs) as He.
  by apply (inv_done_ne _ _ _ _ _ _ Hinv) in He.
Qed.

Lemma reconstruct_None fuel cf acc : reconstruct fuel cf None acc = Ret acc.
Proof. by destruct fuel. Qed.

(** Following [came_from] back from a cell of cost [k] takes [k + 1] steps
    and yields, reversed, a path from the start. *)
Lemma reconstruct_spec L done s (k : nat) : ∀ n fuel acc,
  inv L done s →
  cost_so_far s !! n = Some (Z.of_nat k) →
  (k < fuel)%nat →
  ∃ p, reconstruct fuel (came_from s) (Some n) acc = Ret (acc ++ p) ∧
       length p = S k ∧ is_path g start_node n (reverse p).
Proof.
  induction k as [|k IH]; intros n fuel acc Hinv Hn Hfuel;
    (destruct fuel as [|fuel]; [lia|]); simpl.
  - destruct (decide (n = start_node)) as [->|Hne].
    + rewrite (inv_start_from _ _ _ _ _ _ Hinv). simpl. exists [start_node].
      rewrite reconstruct_None.
      split; [done|]. split; [done|]. constructor.
      apply (inv_pathable _ _ _ _ _ _ Hinv). rewrite Hn. eauto.
    + destruct (inv_parent _ _ _ _ _ _ Hinv _ _ Hn Hne) as (m & _ & Hm & _).
      apply (inv_cost _ _ _ _ _ _ Hinv) in Hm. lia.
  - destruct (decide (n = start_node)) as [->|Hne].
    { rewrite (inv_start_cost _ _ _ _ _ _ Hinv) in Hn. by simplify_eq. }
    destruct (inv_parent _ _ _ _ _ _ Hinv _ _ Hn Hne) as (m & -> & Hm & Hstep).
    simpl. replace (Z.of_nat (S k) - 1) with (Z.of_nat k) in Hm by lia.
    destruct (IH m fuel (acc ++ [n]) Hinv Hm) as (p & -> & Hlen & Hp); [lia|].
    exists (n :: p). split; [by rewrite <- app_assoc|].
    split; [simpl; lia|]. rewrite reverse_cons.
    apply is_path_snoc with m; [done..|].
    apply (inv_pathable _ _ _ _ _ _ Hinv). rewrite Hn. eauto.
Qed.

(** The invariant holds when the loop is entered. *)
Lemma inv_init :
  pathable g start_node →
  inv 0 [] (Search (pq_put [] start_node 0)
                   {[ start_node := None ]} {[ start_node := 0 ]}).
Proof.
  intros Hs. split; simpl.
  - repeat constructor.
  - repeat constructor; simpl; [lia..|]. by rewrite lookup_singleton_eq.
  - intros n c [-> <-]%lookup_singleton_Some. lia.
  - apply NoDup_singleton.
  - intros n. rewrite list_elem_of_singleton. split.
    + by intros [c [-> _]%lookup_singleton_Some].
    + intros ->. rewrite lookup_singleton_eq. eauto.
  - by intros n [c [<- _]%lookup_singleton_Some].
  - by rewrite lookup_singleton_eq.
  - by rewrite lookup_singleton_eq.
  - by intros n c [<- _]%lookup_singleton_Some.
  - by intros u ?%elem_of_nil.
  - lia.
Qed.
End SearchLoop.

(** *** dijkstra as a whole *)

Lemma is_path_head g s e p : is_path g s e p → ∃ p', p = s :: p'.
Proof. destruct 1; eauto. Qed.

Lemma dijkstra_fuel_invalid g s e fuel :
  rectangular g → ¬ (pathable g s ∧ pathable g e) →
  dijkstra_fuel fuel g s e = Ret [].
Proof.
  intros Hrect Hbad. unfold dijkstra_fuel.
  pose proof (valid_node_pathableb g Hrect s) as Hs.
  pose proof (valid_node_pathableb g Hrect e) as He.
  unfold grid_rows, grid_cols in Hs, He.
  destruct Hrect as [Hne Hall]. destruct g as [|row0 g]; [done|].
  simpl in *. rewrite Hs. simpl.
  destruct (pathableb (row0 :: g) s) eqn:Hps; [|done]. simpl.
  rewrite He. simpl.
  destruct (pathableb (row0 :: g) e) eqn:Hpe; [|done].
  destruct Hbad. split; by apply pathableb_spec.
Qed.

Lemma dijkstra_fuel_valid g s e fuel :
  rectangular g → pathable g s → pathable g e →
  (grid_fuel g ≤ fuel)%nat →
  (∃ p, dijkstra_fuel fuel g s e = Ret p ∧ is_path g s e p ∧
        ∀ q, is_path g s e q → (length p ≤ length q)%nat) ∨
  (dijkstra_fuel fuel g s e = Ret [] ∧ ∀ q, ¬ is_path g s e q).
Proof.
  intros Hrect Hs He Hfuel. unfold dijkstra_fuel.
  pose proof (valid_node_pathableb g Hrect s) as Hvs.
  pose proof (valid_node_pathableb g Hrect e) as Hve.
  rewrite (proj2 (pathableb_spec g s) Hs) in Hvs.
  rewrite (proj2 (pathableb_spec g e) He) in Hve.
  destruct (search_loop_spec g s e Hrect fuel 0 []
              (Search (pq_put [] s 0) {[ s := None ]} {[ s := 0 ]}))
    as (found & s' & Hloop & Hpost).
  { by apply inv_init. }
  { by intros u v ?%elem_of_nil. }
  { unfold grid_fuel, cell_count in *. simpl. lia. }
  unfold grid_rows, grid_cols, grid_fuel in *.
  destruct g as [|row0 g]; [by destruct Hrect|].
  simpl in *. rewrite Hvs. simpl. rewrite Hve. simpl. rewrite Hloop. simpl.
  destruct found; simpl in *.
  - left. destruct Hpost as (L & done & e' & q & Hinv & Hcl & <-).
    pose proof (found_cost_bound _ _ _ _ _ _ _ _ _ Hinv) as Hbound.
    assert (cost_so_far s' !! item e' = Some (Z.of_nat (Z.to_nat (priority e'))))
      as Hcost.
    { destruct Hinv. simpl in *. apply Forall_cons in inv_prio0 as [[_ ->] _].
      f_equal. lia. }
    destruct (reconstruct_spec _ _ _ _ _ _ (Z.to_nat (priority e'))
                (item e') fuel [] Hinv Hcost) as (p & Hrec & Hlen & Hp).
    { unfold cell_count in Hbound. simpl in Hbound. lia. }
    simpl in Hrec. rewrite Hrec. simpl.
    destruct (is_path_head _ _ _ _ Hp) as [p' Hp']. rewrite Hp'.
    rewrite decide_False by (by intros []). exists (s :: p').
    rewrite <- Hp'. split; [done|]. split; [done|].
    intros q0 Hq0. rewrite length_reverse, Hlen.
    pose proof (found_minimal _ _ _ _ _ _ _ _ _ _ Hinv Hcl Hq0). lia.
  - right. split; [done|]. destruct Hpost as (L & done & Hinv & Hcl & Hq).
    intros q. by eapply not_found_unreachable.
Qed.

(** *** The claims on [dijkstra] *)

(** Decides [pathable] on a concrete grid and cell. *)
Ltac solve_pathable :=
  split; [unfold in_grid, grid_rows, grid_cols; simpl; lia | by vm_compute].

(** Checks a concrete path cell by cell. *)
Ltac solve_is_path :=
  lazymatch goal with
  | |- is_path _ _ _ [_] => apply is_path_one; solve_pathable
  | |- is_path _ _ _ (_ :: ?b :: _) =>
      apply is_path_cons with b;
        [solve_pathable | unfold unit_step; simpl; lia | solve_is_path]
  end.

Lemma grid_map_rectangular : rectangular grid_map.
Proof. split; [done|]. repeat constructor. Qed.

Lemma pathable_dec g n : {pathable g n} + {¬ pathable g n}.
Proof.
  destruct (pathableb g n) eqn:Hb; [left|right].
  - by apply pathableb_spec.
  - rewrite <- pathableb_spec. congruence.
Defined.

(** On a rectangular grid [dijkstra] returns: no exception, no loop left
    running; what it returns is empty or a shortest path between its
    arguments. *)
Lemma dijkstra_total g s e :
  rectangular g →
  ∃ p, dijkstra g s e = Ret p ∧
       (p = [] ∨
        (is_path g s e p ∧ ∀ q, is_path g s e q → (length p ≤ length q)%nat)).
Proof.
  intros Hrect. unfold dijkstra.
  destruct (pathable_dec g s) as [Hs|Hs]; [destruct (pathable_dec g e) as [He|He]|].
  - destruct (dijkstra_fuel_valid g s e (grid_fuel g) Hrect Hs He (le_n _))
      as [(p & -> & Hp & Hmin)|[-> _]]; eauto.
  - rewrite dijkstra_fuel_invalid; [eauto|done|tauto].
  - rewrite dijkstra_fuel_invalid; [eauto|done|tauto].
Qed.

(** The two ends of [split_row] are pathable and not connected. *)
Example split_row_unreachable :
  pathable split_row (0, 0) ∧ pathable split_row (0, 2) ∧
  ¬ reachable split_row (0, 0) (0, 2) ∧
  dijkstra split_row (0, 0) (0, 2) = Ret [].
Proof.
  assert (pathable split_row (0, 0)) as Hs by solve_pathable.
  assert (pathable split_row (0, 2)) as He by solve_pathable.
  assert (rectangular split_row) as Hrect by (split; [done|repeat constructor]).
  split; [done|]. split; [done|]. split; [|by vm_compute].
  intros [q Hq%valid_path_is_path].
  destruct (dijkstra_fuel_valid _ _ _ (grid_fuel split_row) Hrect Hs He (le_n _))
    as [(p & Hd & Hp & _)|[_ Hno]]; [|by destruct (Hno q)].
  vm_compute in Hd. injection Hd as <-. inversion Hp.
Qed.

(** Claim C1.  On a rectangular grid, in particular on [grid_map], for a
    pathable start and a pathable goal: when the goal can be reached from
    the start, [dijkstra] returns a non-empty path that begins at the
    start, ends at the goal, stays on pathable cells, moves by one row or
    one column at a time, and is no longer than any other such path; when
    the goal cannot be reached it returns the empty path, and raises
    nothing. *)
Theorem dijkstra_shortest_path g s e :
  rectangular g → pathable g s → pathable g e →
  (reachable g s e →
     ∃ p, dijkstra g s e = Ret p ∧ p ≠ [] ∧
          head p = Some s ∧ last p = Some e ∧
          Forall (pathable g) p ∧
          (∀ (i : nat) a b, p !! i = Some a → p !! S i = Some b → unit_step a b) ∧
          (∀ q, valid_path g s e q → (length p ≤ length q)%nat)) ∧
  (¬ reachable g s e → dijkstra g s e = Ret []).
Proof.
  intros Hrect Hs He.
  destruct (dijkstra_fuel_valid g s e (grid_fuel g) Hrect Hs He (le_n _))
    as [(p & Hd & Hp & Hmin)|[Hd Hno]]; fold (dijkstra g s e) in Hd.
  - split.
    + intros _. exists p. split; [done|].
      destruct (is_path_valid _ _ _ _ Hp) as (Hh & Hl & Hf & Hst).
      split; [by destruct Hp|]. repeat (split; [done|]).
      intros q Hq. by apply Hmin, valid_path_is_path.
    + intros Hn. destruct Hn. exists p. by apply is_path_valid.
  - split; [|done]. intros [q Hq]. destruct (Hno q).
    by apply valid_path_is_path.
Qed.

(** Claim C5, as the code has it.  An endpoint off the grid or not pathable
    makes [dijkstra] return the empty path: the value it also returns when
    no route exists. *)
Theorem dijkstra_invalid_endpoint_empty g s e :
  rectangular g → ¬ (pathable g s ∧ pathable g e) → dijkstra g s e = Ret [].
Proof. intros. by apply dijkstra_fuel_invalid. Qed.

(** Claim C5 as stated fails: with the start [(0, 0)] off the line,
    [dijkstra] raises nothing and returns the empty path, which is also its
    answer for a pair of pathable cells without a route. *)
Lemma dijkstra_invalid_endpoint_no_error :
  ¬ pathable grid_map (0, 0) ∧
  dijkstra grid_map (0, 0) (14, 4) = Ret [] ∧
  (∀ ex, dijkstra grid_map (0, 0) (14, 4) ≠ Raise ex) ∧
  pathable split_row (0, 0) ∧ pathable split_row (0, 2) ∧
  dijkstra split_row (0, 0) (0, 2) = dijkstra grid_map (0, 0) (14, 4).
Proof.
  assert (dijkstra grid_map (0, 0) (14, 4) = Ret []) as Hd by (by vm_compute).
  split; [intros [_ H]; vm_compute in H; discriminate|].
  split; [done|]. split; [by rewrite Hd|].
  split; [solve_pathable|]. split; [solve_pathable|]. by vm_compute.
Qed.

(** ** The server loop *)

(** *** Python list operations *)

Lemma py_index_Ret {A} (l : list A) i x :
  0 ≤ i → l !! Z.to_nat i = Some x → py_index l i = Ret x.
Proof.
  intros Hi Hx. unfold py_index.
  destruct (Z.ltb_spec i 0) as [|_]; [lia|].
  destruct (Z.ltb_spec i 0) as [|_]; [lia|]. by rewrite Hx.
Qed.

Lemma py_index_in_range {A} (l : list A) i :
  0 ≤ i < Z.of_nat (length l) →
  ∃ x, py_index l i = Ret x ∧ l !! Z.to_nat i = Some x.
Proof.
  intros Hi. destruct (lookup_lt_is_Some_2 l (Z.to_nat i)) as [x Hx]; [lia|].
  exists x. split; [|done]. apply py_index_Ret; [lia|done].
Qed.

Lemma py_list_index_cases l x start :
  0 ≤ start →
  (∃ i, py_list_index l x start = Ret i ∧ start ≤ i < Z.of_nat (length l) ∧
        l !! Z.to_nat i = Some x) ∨
  py_list_index l x start = Raise ValueError.
Proof.
  intros Hs. unfold py_list_index.
  destruct (Z.ltb_spec start 0) as [|_]; [lia|].
  destruct (list_find _ _) as [[i y]|] eqn:Hf; [left|by right].
  apply list_find_Some in Hf as (Hi & -> & _).
  rewrite lookup_drop in Hi. exists (start + Z.of_nat i).
  split; [done|]. apply lookup_lt_Some in Hi as Hlt.
  split; [lia|]. rewrite <- Hi. f_equal. lia.
Qed.

(** *** The state monad, unfolded *)

Ltac munfold :=
  unfold mbind, M_bind, m_bind, mret, M_ret, m_ret, m_get, m_modify, m_lift in *;
  simpl in *.

Lemma set_path_index_same st : set_path_index (current_path_index st) st = st.
Proof. by destruct st. Qed.

Section PlannerFacts.
Context {pf : PyFloat}.

Lemma heading_action_forward cur nxt θ n :
  heading_action cur nxt θ = Ret ("forward"%string, n) → cur ≠ nxt.
Proof.
  intros H ->. unfold heading_action in H.
  rewrite !Z.sub_diag in H. simpl in H. discriminate.
Qed.

(** *** The action for a path segment *)

Lemma action_for_error_protocol err :
  action_for_error err ∈ PROTOCOL_ACTIONS ∧
  action_for_error err ≠ "stop"%string.
Proof.
  unfold action_for_error, PROTOCOL_ACTIONS.
  destruct (f_lt _ _); [destruct (f_lt _ _)|]; (split; [set_solver|done]).
Qed.

Ltac trig_cases :=
  repeat match goal with
         | |- context [f_sin ?x] =>
             destruct (f_sin x) as [?| |]; simpl; try done
         | |- context [f_cos ?x] =>
             destruct (f_cos x) as [?| |]; simpl; try done
         | |- context [f_atan2 ?x ?y] =>
             destruct (f_atan2 x y) as [?| |]; simpl; try done
         | |- context [f_lt ?x ?y] =>
             destruct (f_lt x y); simpl; try done
         end.

Lemma heading_action_unit_step cur nxt theta :
  unit_step cur nxt →
  heading_action cur nxt theta
  = angular_error cur nxt theta ≫= λ err,
      Ret (action_for_error err, Some cur).
Proof.
  destruct cur as [r c], nxt as [r' c'].
  unfold unit_step, heading_action, action_for_error, angular_error,
    normalize_angle, segment_heading. simpl.
  intros [[<- Hd]|[<- Hd]].
  - destruct (Z.abs_spec (c' - c)) as [[_ Ha]|[_ Ha]].
    + replace c' with (c + 1) by lia.
      replace (c + 1 - c) with 1 by lia. rewrite Z.sub_diag. simpl.
      rewrite bool_decide_eq_true_2 by done. trig_cases.
    + replace c' with (c - 1) by lia.
      replace (c - 1 - c) with (-1) by lia. rewrite Z.sub_diag. simpl.
      rewrite bool_decide_eq_false_2 by (intros [=]; lia).
      rewrite bool_decide_eq_true_2 by done. trig_cases.
  - destruct (Z.abs_spec (r' - r)) as [[_ Ha]|[_ Ha]].
    + replace r' with (r + 1) by lia.
      replace (r + 1 - r) with 1 by lia. rewrite Z.sub_diag. simpl.
      rewrite bool_decide_eq_false_2 by (intros [=]; lia).
      rewrite bool_decide_eq_false_2 by (intros [=]; lia).
      rewrite bool_decide_eq_true_2 by done. trig_cases.
    + replace r' with (r - 1) by lia.
      replace (r - 1 - r) with (-1) by lia. rewrite Z.sub_diag. simpl.
      rewrite bool_decide_eq_false_2 by (intros [=]; lia).
      rewrite bool_decide_eq_false_2 by (intros [=]; lia).
      rewrite bool_decide_eq_false_2 by (intros [=]; lia).
      trig_cases.
Qed.

(** Between two cells that are not a unit step apart the answer is
    ['stop'], before any sine is taken; for a unit step it is the action
    for the angular error, or the exception met on the way to it. *)
Lemma heading_action_cases cur nxt θ :
  (¬ unit_step cur nxt ∧
   heading_action cur nxt θ = Ret ("stop"%string, Some cur)) ∨
  (unit_step cur nxt ∧
   heading_action cur nxt θ
   = angular_error cur nxt θ ≫= λ err, Ret (action_for_error err, Some cur)).
Proof.
  assert (Decision (unit_step cur nxt)) as [Hstep|Hstep]
    by (unfold unit_step; apply _).
  { right. split; [done|]. by apply heading_action_unit_step. }
  left. split; [done|]. unfold heading_action.
  repeat match goal with
         | |- context [(?a =? ?b)] => destruct (Z.eqb_spec a b)
         end; simpl; try done;
  exfalso; apply Hstep; unfold unit_step; lia.
Qed.

(** What [get_action_from_path] does in every state: it writes the cursor
    only, which stays or moves forward to a later place of the path that
    holds the position; it answers ['stop'] with the position it was given,
    or it is on a segment of the path, a unit step, and answers as
    [heading_action] does there. *)
Lemma get_action_from_path_cases pos θ sens st :
  ∃ r i,
    get_action_from_path pos θ sens st = (r, set_path_index i st) ∧
    (i = current_path_index st ∨
     (current_path_index st < i < Z.of_nat (length (planned_path st)) ∧
      planned_path st !! Z.to_nat i = pos ∧
      planned_path st !! Z.to_nat (current_path_index st) ≠ pos)) ∧
    (r = Ret ("stop"%string, pos) ∨
     ∃ cur nxt, pos = Some cur ∧ goal_grid_pos st ≠ Some cur ∧ 0 ≤ i ∧
       planned_path st !! Z.to_nat i = Some cur ∧
       planned_path st !! Z.to_nat (i + 1) = Some nxt ∧ unit_step cur nxt ∧
       r = angular_error cur nxt θ ≫= λ err,
             Ret (action_for_error err, Some cur)).
Proof.
  pose proof (set_path_index_same st) as Hsame.
  assert (∃ r i,
    (@Ret (string * option cell) ("stop"%string, pos), st)
    = (r, set_path_index i st) ∧
    (i = current_path_index st ∨
     (current_path_index st < i < Z.of_nat (length (planned_path st)) ∧
      planned_path st !! Z.to_nat i = pos ∧
      planned_path st !! Z.to_nat (current_path_index st) ≠ pos)) ∧
    (r = Ret ("stop"%string, pos) ∨
     ∃ cur nxt, pos = Some cur ∧ goal_grid_pos st ≠ Some cur ∧ 0 ≤ i ∧
       planned_path st !! Z.to_nat i = Some cur ∧
       planned_path st !! Z.to_nat (i + 1) = Some nxt ∧ unit_step cur nxt ∧
       r = angular_error cur nxt θ ≫= λ err,
             Ret (action_for_error err, Some cur))) as Hstop.
  { exists (Ret ("stop"%string, pos)), (current_path_index st).
    rewrite Hsame. split; [done|]. split; by left. }
  unfold get_action_from_path. munfold.
  destruct pos as [pos|]; [|exact Hstop].
  case_bool_decide as Hnil; [exact Hstop|].
  case_bool_decide as Hgoal; [exact Hstop|].
  destruct (_ && _) eqn:Hrange; simpl; [|exact Hstop].
  clear Hstop.
  apply andb_prop in Hrange as [Hlo%Z.leb_le Hhi%Z.ltb_lt].
  destruct (py_index_in_range (planned_path st) (current_path_index st))
    as (cur & -> & Hcur); [lia|].
  destruct (py_index_in_range (planned_path st) (current_path_index st + 1))
    as (nxt & -> & Hnxt); [lia|].
  assert (goal_grid_pos st ≠ Some pos) as Hgoal' by congruence.
  case_bool_decide as Hne; simpl.
  - destruct (py_list_index_cases (planned_path st) pos (current_path_index st))
      as [(i & -> & Hi & Hpos)| ->]; [done| |].
    + rewrite (py_index_Ret (planned_path st) i pos); [|lia|done].
      assert (current_path_index st < i) as Hlt.
      { destruct (decide (i = current_path_index st)) as [->|]; [|lia].
        congruence. }
      assert (planned_path st !! Z.to_nat (current_path_index st) ≠ Some pos)
        as Hold by congruence.
      destruct (Z.leb_spec (Z.of_nat (length (planned_path st)) - 1) i).
      * exists (Ret ("stop"%string, Some pos)), i. split; [done|].
        split; [right; split; [lia|done]|by left].
      * destruct (py_index_in_range (planned_path st) (i + 1))
          as (nxt' & -> & Hnxt'); [lia|].
        exists (heading_action pos nxt' θ), i. split; [done|].
        split; [right; split; [lia|done]|].
        destruct (heading_action_cases pos nxt' θ) as [[_ ->]|[Hstep ->]];
          [by left|].
        right. exists pos, nxt'. split; [done|]. split; [done|].
        split; [lia|]. by repeat split.
    + exists (Ret ("stop"%string, Some pos)), (current_path_index st).
      rewrite Hsame. split; [done|]. split; by left.
  - subst cur.
    exists (heading_action pos nxt θ), (current_path_index st).
    rewrite Hsame. split; [done|]. split; [by left|].
    destruct (heading_action_cases pos nxt θ) as [[_ ->]|[Hstep ->]];
      [by left|].
    right. exists pos, nxt. split; [done|]. split; [done|].
    split; [lia|]. by repeat split.
Qed.

(** The block that advances the cursor never fires: ['forward'] is only
    returned for a segment between two different cells, and the reported
    position cannot be both.  What [choose_action] answers is ['stop'], or
    the action for the angular error of the segment under the cursor, or
    the exception met when that error is computed. *)
Lemma choose_action_cases m st :
  ∃ r i, choose_action m st = (r, set_path_index i st) ∧
    (cursor_synced st → i = current_path_index st) ∧
    (r = Ret "stop"%string ∨
     ∃ cur nxt, current_robot_grid_pos_path st = Some cur ∧
       goal_grid_pos st ≠ Some cur ∧ 0 ≤ i ∧
       planned_path st !! Z.to_nat i = Some cur ∧
       planned_path st !! Z.to_nat (i + 1) = Some nxt ∧ unit_step cur nxt ∧
       r = angular_error cur nxt (theta_rad m) ≫= λ err,
             Ret (action_for_error err)).
Proof.
  unfold choose_action. munfold.
  destruct (_ && _) eqn:Hcond.
  2:{ exists (Ret "stop"%string), (current_path_index st).
      rewrite set_path_index_same. split; [done|]. split; [done|by left]. }
  clear Hcond.
  destruct (get_action_from_path_cases (current_robot_grid_pos_path st)
              (theta_rad m) (sensors_binary m) st)
    as (r & i & -> & Hi & Hr).
  assert (cursor_synced st → i = current_path_index st) as Hsync.
  { intros [Hnil|(c & Hc & _ & Hlook)].
    - destruct Hi as [?|(_ & Hp & Hne)]; [done|].
      rewrite Hnil in Hp, Hne. rewrite lookup_nil in Hp, Hne. congruence.
    - destruct Hi as [?|(_ & _ & Hne)]; [done|]. congruence. }
  destruct Hr as [->|(cur & nxt & Hcur & Hg & Hi0 & Hlc & Hln & Hstep & ->)].
  { simpl. exists (Ret "stop"%string), i. split; [by case_bool_decide|].
    split; [done|by left]. }
  assert (cur ≠ nxt) as Hne.
  { intros ->. unfold unit_step in Hstep. lia. }
  destruct (angular_error cur nxt (theta_rad m)) as [err| |] eqn:Herr; simpl.
  - exists (Ret (action_for_error err)), i. split.
    + case_bool_decide as Hpos; [|done].
      destruct (bool_decide (action_for_error err = "forward"%string));
        [|done]. simpl.
      destruct (Z.ltb_spec i (Z.of_nat (length (planned_path st)) - 1));
        [|done]. simpl.
      rewrite (py_index_Ret (planned_path st) (i + 1) nxt); [|lia|done].
      rewrite bool_decide_eq_false_2; [done|]. congruence.
    + split; [done|]. right. exists cur, nxt. rewrite Herr.
      by repeat (split; [done|]).
  - exists (Raise e), i. split; [done|]. split; [done|].
    right. exists cur, nxt. rewrite Herr. by repeat (split; [done|]).
  - exists OutOfFuel, i. split; [done|]. split; [done|].
    right. exists cur, nxt. rewrite Herr. by repeat (split; [done|]).
Qed.

Lemma replan_spec now st :
  ∃ st', replan now st = (Ret tt, st') ∧
    current_robot_grid_pos_actual st' = current_robot_grid_pos_actual st ∧
    goal_grid_pos st' = goal_grid_pos st ∧
    (cursor_synced st → cursor_synced st').
Proof.
  unfold replan. munfold.
  destruct (current_robot_grid_pos_actual st) as [a|] eqn:Ha; [|by eauto].
  destruct (goal_grid_pos st) as [gl|] eqn:Hg; [|by eauto].
  destruct (dijkstra_total grid_map a gl grid_map_rectangular) as (p & -> & _).
  destruct p as [|first p]; simpl.
  { eexists. split; [done|]. simpl. repeat split; [done..|]. by left. }
  case_bool_decide as Hfirst; simpl.
  { eexists. split; [done|]. simpl. repeat split; [done..|].
    intros _. right. exists first. simpl. by repeat split. }
  destruct (py_list_index_cases (first :: p) a 0)
    as [(i & -> & Hi & Hlook)| ->]; [done| |]; simpl.
  - eexists. split; [done|]. simpl. repeat split; [done..|].
    intros _. right. exists a. simpl. split; [done|]. split; [lia|done].
  - eexists. split; [done|]. simpl. repeat split; [done..|].
    intros _. right. exists first. simpl. by repeat split.
Qed.

(** Claim C4, as the code has it.  When the planner returns the empty
    path, the replanning block empties [planned_path] and sets
    [path_needs_replan]; the cursor, the path position and everything else
    keep their values. *)
Theorem replan_no_path_clears_path now st a gl :
  current_robot_grid_pos_actual st = Some a →
  goal_grid_pos st = Some gl →
  dijkstra grid_map a gl = Ret [] →
  replan now st =
    (Ret tt,
     Planner (current_robot_grid_pos_actual st) (current_robot_grid_pos_path st)
       (goal_grid_pos st) [] (current_path_index st) true
       (last_replan_time st)).
Proof.
  intros Ha Hg Hd. unfold replan. munfold.
  destruct st. simpl in *. subst. by rewrite Hd.
Qed.

Lemma update_belief_actual m st :
  current_robot_grid_pos_actual (update_belief m st) = Some (robot_grid_pos m).
Proof.
  unfold update_belief. destruct st as [[a|] [pp|] [gl|] ? ? ? ?]; simpl;
    repeat (case_bool_decide; simpl); repeat (case_match; simpl);
    simpl in *; congruence.
Qed.

Lemma update_belief_goal m st :
  goal_grid_pos (update_belief m st) = Some (status_goal_grid_pos m).
Proof.
  unfold update_belief. destruct st as [[a|] [pp|] [gl|] ? ? ? ?]; simpl;
    repeat (case_bool_decide; simpl); repeat (case_match; simpl);
    simpl in *; congruence.
Qed.

Lemma update_belief_cursor m st :
  current_path_index (update_belief m st) = current_path_index st ∧
  planned_path (update_belief m st) = planned_path st ∧
  (is_Some (current_robot_grid_pos_path st) →
   current_robot_grid_pos_path (update_belief m st)
   = current_robot_grid_pos_path st).
Proof.
  unfold update_belief. destruct st as [[a|] [pp|] [gl|] ? ? ? ?]; simpl;
    repeat (case_bool_decide; simpl); repeat (case_match; simpl);
    simpl in *; (split; [done|]; split; [done|]; by intros [? ?]).
Qed.

Lemma update_belief_synced m st :
  cursor_synced st → cursor_synced (update_belief m st).
Proof.
  destruct (update_belief_cursor m st) as (Hi & Hp & Hpos).
  intros [Hnil|(c & Hc & H0 & Hlook)]; [left; congruence|].
  right. exists c. rewrite Hi, Hp, Hpos; [done|]. rewrite Hc. eauto.
Qed.

Lemma replan_route now st :
  is_Some (current_robot_grid_pos_actual st) → is_Some (goal_grid_pos st) →
  route_to_goal (replan now st).2.
Proof.
  intros [a Ha] [gl Hg]. unfold replan. munfold. rewrite Ha, Hg.
  destruct (dijkstra_total grid_map a gl grid_map_rectangular)
    as (p & -> & Hp). simpl.
  destruct p as [|first p]; simpl; [by left|].
  destruct Hp as [?|[Hp Hmin]]; [done|].
  assert (∀ st', goal_grid_pos st' = Some gl →
                 planned_path st' = first :: p → route_to_goal st') as Hrt.
  { intros st' Hg' Hp'. right. exists a, gl. by rewrite Hp'. }
  case_bool_decide; simpl; [by apply Hrt|].
  destruct (py_list_index (first :: p) a 0) as [i|[]|]; simpl;
    first [by apply Hrt | idtac].
  all: right; exists a, gl; simpl; by rewrite ?Hg.
Qed.

Lemma update_belief_route m st :
  route_to_goal st →
  route_to_goal (update_belief m st) ∨
  path_needs_replan (update_belief m st) = true.
Proof.
  intros Hrt.
  assert (goal_grid_pos (update_belief m st) = goal_grid_pos st ∨
          path_needs_replan (update_belief m st) = true) as [Hg|?];
    [| |by right].
  { unfold update_belief. destruct st as [[a|] [pp|] [gl|] ? ? ? ?]; simpl;
      repeat (case_bool_decide; simpl); repeat (case_match; simpl);
      simpl in *; auto. }
  left. destruct (update_belief_cursor m st) as (_ & Hp & _).
  unfold route_to_goal. rewrite Hp, Hg. done.
Qed.

(** What [handle_status] does, step by step: [st2] is the belief after
    the replanning block (if it ran), [r] what [choose_action] yields, an
    action or an exception, and [i] the cursor after it.  An exception
    leaves the handler (to be caught and printed) with the globals as they
    are at that point. *)
Lemma handle_status_unfold now m st :
  ∃ st2 r i,
    (if replan_due now (update_belief m st)
     then replan now (update_belief m st) = (Ret tt, st2)
     else st2 = update_belief m st) ∧
    current_robot_grid_pos_actual st2 = Some (robot_grid_pos m) ∧
    goal_grid_pos st2 = Some (status_goal_grid_pos m) ∧
    (cursor_synced st → cursor_synced st2 ∧ i = current_path_index st2) ∧
    (route_to_goal st → route_to_goal st2) ∧
    (r = Ret "stop"%string ∨
     ∃ cur nxt, current_robot_grid_pos_path st2 = Some cur ∧
       goal_grid_pos st2 ≠ Some cur ∧ 0 ≤ i ∧
       planned_path st2 !! Z.to_nat i = Some cur ∧
       planned_path st2 !! Z.to_nat (i + 1) = Some nxt ∧ unit_step cur nxt ∧
       r = angular_error cur nxt (theta_rad m) ≫= λ err,
             Ret (action_for_error err)) ∧
    handle_status now m st =
      let st3 := set_path_index i st2 in
      match r with
      | Ret a =>
          if bool_decide (current_robot_grid_pos_actual st3 = goal_grid_pos st3)
          then (Ret (Command "stop" [] (current_robot_grid_pos_path st3)
                       (current_path_index st3)),
                set_needs_replan false (set_planned_path [] st3))
          else (Ret (Command a (planned_path st3)
                       (current_robot_grid_pos_path st3)
                       (current_path_index st3)), st3)
      | Raise e => (Raise e, st3)
      | OutOfFuel => (OutOfFuel, st3)
      end.
Proof.
  pose proof (update_belief_actual m st) as Hact.
  pose proof (update_belief_goal m st) as Hgoal.
  pose proof (update_belief_synced m st) as Hsync.
  pose proof (update_belief_route m st) as Hroute.
  unfold handle_status. munfold.
  destruct (replan_due now (update_belief m st)) eqn:Hdue.
  - destruct (replan_spec now (update_belief m st))
      as (st2 & Hr & Ha2 & Hg2 & Hs2).
    pose proof (replan_route now (update_belief m st)) as Hroute2.
    rewrite Hr, Hact, Hgoal in Hroute2.
    destruct (choose_action_cases m st2) as (r & i & Hc & Hi & Hcases).
    exists st2, r, i. rewrite Hr. simpl. rewrite Hc. simpl.
    split; [done|]. split; [congruence|]. split; [congruence|].
    split; [auto|]. split; [eauto|]. split; [done|].
    destruct r; [by case_bool_decide|done..].
  - destruct (choose_action_cases m (update_belief m st))
      as (r & i & Hc & Hi & Hcases).
    exists (update_belief m st), r, i. rewrite Hc. simpl.
    split; [done|]. split; [done|]. split; [done|].
    split; [auto|]. split.
    { intros Hrt. destruct (Hroute Hrt) as [?|Hn]; [done|].
      unfold replan_due in Hdue. by rewrite Hn in Hdue. }
    split; [done|]. destruct r; [by case_bool_decide|done..].
Qed.

Lemma handle_status_synced now m st :
  cursor_synced st → cursor_synced (handle_status now m st).2.
Proof.
  intros Hs.
  destruct (handle_status_unfold now m st)
    as (st2 & r & i & _ & _ & _ & Hsync & _ & _ & ->).
  destruct (Hsync Hs) as [Hs2 ->]. rewrite set_path_index_same. simpl.
  destruct r; simpl; [|done..].
  case_bool_decide; simpl; [by left|done].
Qed.

Lemma process_parts_synced now parts st :
  cursor_synced st → cursor_synced (process_parts now parts st).
Proof.
  unfold process_parts. revert st.
  induction parts as [|p parts IH]; intros st Hs; simpl; [done|].
  apply IH. destruct p; simpl; [done..|]. by apply handle_status_synced.
Qed.

Lemma set_needs_replan_synced b st :
  cursor_synced st → cursor_synced (set_needs_replan b st).
Proof. by destruct st. Qed.

(** In every state of the server loop the cursor is synchronised. *)
Lemma reachable_synced sv : reachable_server sv → cursor_synced (globals sv).
Proof.
  induction 1 as [|inp sv _ IH]; [by left|].
  unfold loop_iteration.
  destruct (conn sv), (accept_ok inp), (recv inp) as [parts| |code|];
    simpl; try done; try (by left);
    try (destruct (code =? 116); simpl);
    auto using process_parts_synced, set_needs_replan_synced.
Qed.

Lemma handle_status_route now m st :
  route_to_goal st → route_to_goal (handle_status now m st).2.
Proof.
  intros Hrt.
  destruct (handle_status_unfold now m st)
    as (st2 & r & i & _ & _ & _ & _ & Hroute & _ & ->).
  simpl. destruct r; simpl; [|by apply Hroute..].
  case_bool_decide; simpl; [by left|]. by apply Hroute.
Qed.

(** In every state of the server loop the planned path is a shortest path
    to the goal. *)
Lemma reachable_route sv : reachable_server sv → route_to_goal (globals sv).
Proof.
  induction 1 as [|inp sv _ IH]; [by left|].
  assert (∀ parts now st, route_to_goal st →
            route_to_goal (process_parts now parts st)) as Hparts.
  { intros parts now. unfold process_parts.
    induction parts as [|p parts IHp]; intros st Hs; simpl; [done|].
    apply IHp. destruct p; simpl; [done..|]. by apply handle_status_route. }
  unfold loop_iteration.
  destruct (conn sv), (accept_ok inp), (recv inp) as [parts| |code|];
    simpl; try done; try (by left);
    try (destruct (code =? 116); simpl); try done;
    by apply Hparts.
Qed.

(** A cell of the planned path that has a successor is not the goal. *)
Lemma route_segment_not_goal st i cur nxt :
  route_to_goal st → 0 ≤ i →
  planned_path st !! Z.to_nat i = Some cur →
  planned_path st !! Z.to_nat (i + 1) = Some nxt →
  goal_grid_pos st ≠ Some cur.
Proof.
  intros [Hnil|(s & gl & Hg & Hp & Hmin)] Hi Hcur Hnxt.
  { by rewrite Hnil in Hcur. }
  rewrite Hg. intros [= ->].
  pose proof (shortest_path_end_last _ _ _ _ _ Hp Hmin Hcur) as Hlast.
  apply lookup_lt_Some in Hnxt. lia.
Qed.

(** Without a replan the cursor of a synchronised state stays where it
    is. *)
Lemma cursor_fixed_without_replan now m st :
  cursor_synced st →
  replan_due now (update_belief m st) = false →
  current_path_index (handle_status now m st).2 = current_path_index st.
Proof.
  intros Hs Hdue.
  destruct (handle_status_unfold now m st)
    as (st2 & r & i & Hst2 & _ & _ & Hsync & _ & _ & ->).
  rewrite Hdue in Hst2. subst st2.
  destruct (Hsync Hs) as [_ ->]. rewrite set_path_index_same. simpl.
  destruct (update_belief_cursor m st) as [Hi _].
  destruct r; [by case_bool_decide|done..].
Qed.

(** Claim C2.  In a state of the server loop, a status message that does
    not trigger a replan either leaves the cursor where it was or below,
    or the reported position is the cell at the new cursor and the path
    position is that cell.  (By [cursor_fixed_without_replan] it is the
    first: the cursor only moves in a replan.) *)
Theorem cursor_advance_needs_confirmed_arrival sv now m :
  reachable_server sv →
  replan_due now (update_belief m (globals sv)) = false →
  let st' := (handle_status now m (globals sv)).2 in
  current_path_index st' ≤ current_path_index (globals sv) ∨
  (current_robot_grid_pos_actual st' = Some (robot_grid_pos m) ∧
   planned_path st' !! Z.to_nat (current_path_index st')
   = Some (robot_grid_pos m) ∧
   current_robot_grid_pos_path st' = Some (robot_grid_pos m)).
Proof.
  intros Hr Hdue. simpl. left.
  rewrite cursor_fixed_without_replan; [done| |done].
  by apply reachable_synced.
Qed.


(** Claim C7.  When a read yields no data, the loop drops the connection,
    forgets the reported position, the path position and the planned path
    and sets [path_needs_replan]; the goal, the cursor and the time of the
    last replan are as before. *)
Theorem disconnect_resets_session inp sv :
  recv inp = RecvEmpty →
  conn sv = true ∨ accept_ok inp = true →
  loop_iteration inp sv =
    Server false
      (Planner None None (goal_grid_pos (globals sv)) []
         (current_path_index (globals sv)) true
         (last_replan_time (globals sv))).
Proof.
  intros Hrecv Hconn. unfold loop_iteration. rewrite Hrecv.
  destruct (conn sv), (accept_ok inp), Hconn; try done.
Qed.

(** The next status message after a disconnection triggers a replan. *)
Lemma replan_due_after_disconnect now m st :
  replan_due now (update_belief m (disconnect_reset st)) = true.
Proof.
  unfold replan_due, update_belief.
  destruct st as [[a|] [pp|] [gl|] ? ? ? ?]; simpl;
    repeat (case_bool_decide; simpl); done.
Qed.

(** Claim C8, as amended.  For a segment of the planned path from the
    cell under the cursor to the next one, the two a unit step apart, and
    any heading, [get_action_from_path] answers from the angular error
    alone: a turn when its absolute value exceeds the threshold of 40
    degrees, to the left when the error is positive and to the right
    otherwise, and ["forward"] when it does not exceed it.  When the sine
    or the cosine raises while the error is computed, as they do on an
    infinite heading, that exception leaves [get_action_from_path] and
    there is no action.  The globals are not changed.  The cell under the
    cursor is not the goal, as it never is for a segment of the path the
    server loop follows ([route_segment_not_goal]); on the goal the answer
    is ["stop"]. *)
Theorem action_follows_angular_error st cur nxt theta sens :
  unit_step cur nxt →
  0 ≤ current_path_index st →
  planned_path st !! Z.to_nat (current_path_index st) = Some cur →
  planned_path st !! Z.to_nat (current_path_index st + 1) = Some nxt →
  goal_grid_pos st ≠ Some cur →
  get_action_from_path (Some cur) theta sens st
  = (angular_error cur nxt theta ≫= λ err,
       Ret (action_for_error err, Some cur),
     st).
Proof.
  intros Hstep Hidx Hcur Hnxt Hgoal.
  unfold get_action_from_path. munfold.
  rewrite bool_decide_eq_false_2 by (by intros Hnil; rewrite Hnil in Hcur).
  rewrite bool_decide_eq_false_2 by congruence.
  apply lookup_lt_Some in Hnxt as Hlen.
  destruct (Z.leb_spec 0 (current_path_index st)); [|lia].
  destruct (Z.ltb_spec (current_path_index st)
              (Z.of_nat (length (planned_path st)) - 1)); [|lia].
  simpl.
  rewrite (py_index_Ret _ _ _ Hidx Hcur).
  rewrite (py_index_Ret (planned_path st) (current_path_index st + 1) nxt);
    [|lia|done].
  rewrite bool_decide_eq_false_2 by (by intros []).
  by rewrite heading_action_unit_step.
Qed.
End PlannerFacts.

(** ** The motion node *)

Section ObstacleFacts.
Context {bm : BotMath}.

Lemma sensors_loop_spec distance_values : ∀ sensor_index row col o acc d new d',
  sensors_loop sensor_index distance_values row col o acc d = Ret (new, d') →
  ∃ added, new = acc ++ added ∧ NoDup added ∧
    (∀ x, x ∈ added → x ∉ detected_obstacles d) ∧
    detected_obstacles d' = detected_obstacles d ∪ list_to_set added ∧
    recent_obstacles d' = recent_obstacles d.
Proof.
  induction distance_values as [|v rest IH];
    intros idx row col o acc d new d' Hrun; simpl in Hrun.
  { injection Hrun as <- <-. exists []. rewrite app_nil_r.
    split; [done|]. split; [constructor|]. split; [by intros x ?%elem_of_nil|].
    split; [set_solver|done]. }
  destruct (DISTANCE_SENSOR_THRESHOLD <? v)%float; [|by eapply IH].
  destruct (_calculate_obstacle_position row col o idx) as [pos| |]; [|done..].
  simpl in Hrun. destruct (_is_valid_position pos); [|by eapply IH].
  destruct (decide (pos ∉ detected_obstacles d)) as [Hnew|_]; [|by eapply IH].
  apply IH in Hrun as (added & -> & Hnd & Hfresh & Hdet & Hrec). simpl in *.
  exists (pos :: added). split; [by rewrite <- app_assoc|].
  split; [constructor; [|done]; intros Hin; apply Hfresh in Hin; set_solver|].
  split.
  - intros x [->|Hx]%elem_of_cons; [done|]. apply Hfresh in Hx. set_solver.
  - split; [|done]. rewrite Hdet. set_solver.
Qed.

Lemma process_sensor_readings_spec d p o distance_values new d' :
  process_sensor_readings d p o distance_values = Ret (new, d') →
  NoDup new ∧ (∀ x, x ∈ new → x ∉ detected_obstacles d) ∧
  detected_obstacles d' = detected_obstacles d ∪ list_to_set new ∧
  recent_obstacles d' = recent_obstacles d.
Proof.
  unfold process_sensor_readings. simpl.
  destruct (world_to_grid _ _) as [[row col]| |]; [|done..]. simpl.
  intros (added & -> & ?)%sensors_loop_spec. done.
Qed.

(** What was returned in batches is new to the detector at the start and
    free of repetitions, and the reports are an initial part of the queue
    at the start followed by the batches. *)
Lemma run_detector_spec ops : ∀ d batches reports d',
  run_detector ops d = Ret (batches, reports, d') →
  NoDup (concat batches) ∧
  (∀ x, x ∈ concat batches → x ∉ detected_obstacles d) ∧
  ∃ rest, recent_obstacles d ++ concat batches = concat reports ++ rest.
Proof.
  induction ops as [|[p dv|] ops IH]; intros d batches reports d' Hrun;
    simpl in Hrun.
  - injection Hrun as <- <- <-. simpl.
    split; [constructor|]. split; [by intros x ?%elem_of_nil|].
    by exists (recent_obstacles d ++ []).
  - destruct (process_sensor_readings d p (pose_theta p) dv)
      as [[new d1]| |] eqn:Hp; [|done..]. simpl in Hrun.
    apply process_sensor_readings_spec in Hp as (Hnd & Hfresh & Hdet & Hrec).
    set (d2 := if bool_decide (new ≠ []) then add_recent_obstacles d1 new
               else d1) in Hrun.
    assert (detected_obstacles d2 = detected_obstacles d1 ∧
            recent_obstacles d2 = recent_obstacles d ++ new) as [Hdet2 Hrec2].
    { unfold d2. case_bool_decide as Hne; simpl; [by rewrite Hrec|].
      subst new. by rewrite app_nil_r. }
    destruct (run_detector ops d2) as [[[bs ds] d3]| |] eqn:Hrest; [|done..].
    simpl in Hrun. injection Hrun as <- <- <-.
    apply IH in Hrest as (Hnd' & Hfresh' & rest & Hrest). simpl.
    rewrite Hdet2, Hdet in Hfresh'. rewrite Hrec2 in Hrest.
    split.
    { apply NoDup_app. split; [done|]. split; [|done].
      intros x Hx Hx'. apply Hfresh' in Hx'. set_solver. }
    split.
    { intros x [Hx|Hx]%elem_of_app; [by apply Hfresh|].
      apply Hfresh' in Hx. set_solver. }
    exists rest. by rewrite app_assoc.
  - destruct (run_detector ops (Detector (detected_obstacles d) []))
      as [[[bs ds] d3]| |] eqn:Hrest; [|done..].
    simpl in Hrun. injection Hrun as <- <- <-.
    apply IH in Hrest as (Hnd' & Hfresh' & rest & Hrest). simpl in *.
    split; [done|]. split; [done|].
    exists rest. by rewrite Hrest, app_assoc.
Qed.

(** Claim C9.  Over any sequence of sensor processing and queue drains
    from a fresh detector, no grid cell occurs twice in the batches that
    [process_sensor_readings] returns, and none occurs twice in what
    [get_recent_obstacles] hands out. *)
Theorem obstacles_reported_once ops batches reports d' :
  run_detector ops new_detector = Ret (batches, reports, d') →
  NoDup (concat batches) ∧ NoDup (concat reports).
Proof.
  intros (Hnd & _ & rest & Hrest)%run_detector_spec. split; [done|].
  simpl in Hrest. rewrite Hrest in Hnd. by apply NoDup_app in Hnd as [? _].
Qed.
End ObstacleFacts.

(** The timeout check after the chain of [_execute_line_adjustment] is
    never reached: whatever the sensors and the time, the chain returns. *)
Lemma adjustment_timeout_unreachable tc l c r t :
  ∃ out, adjustment_chain tc l c r t = Some out ∧
         _execute_line_adjustment tc [l; c; r] t = Ret out.
Proof.
  unfold _execute_line_adjustment, adjustment_chain.
  repeat (destruct (_ : bool); simpl; eauto).
Qed.

(** Claim C3 fails on the code.  With all three sensors on the line the
    adjustment step keeps the phase [ADJUSTING_ON_LINE] and drives at
    0.7 of the base speed, at any time: also 10 s after the phase began,
    far beyond [MAX_ADJUST_DURATION]. *)
Theorem line_adjustment_ignores_timeout :
  let tc := TurnController ADJUSTING_ON_LINE (Some "turn_left"%string) 0 in
  (MAX_ADJUST_DURATION <? 10 - phase_start_time tc)%float = true ∧
  (∀ t, _execute_line_adjustment tc [1; 1; 1] t
        = Ret (Some (TURN_ADJUST_BASE_SPEED * 0.7,
                     TURN_ADJUST_BASE_SPEED * 0.7)%float, tc)) ∧
  (TURN_ADJUST_BASE_SPEED * 0.7 =? 0)%float = false.
Proof. split; [by vm_compute|]. split; [done|by vm_compute]. Qed.

Lemma resolve_forward_without_line tc line_detected :
  is_turning tc = false → py_any line_detected = false →
  resolve_effective_command tc "forward" line_detected
  = (Some "turn_left"%string, tc).
Proof.
  intros Hidle Hline. unfold resolve_effective_command.
  by rewrite Hidle, Hline.
Qed.

(** Executing ['turn_left'] on an idle controller starts a turn. *)
Lemma turn_left_starts_turn tc line_detected t :
  is_turning tc = false →
  ∃ speeds tc',
    execute_movement tc (Some "turn_left"%string) line_detected t
    = Ret (speeds, tc') ∧ is_turning tc' = true.
Proof.
  intros Hidle.
  unfold execute_movement, initiate_turn, execute_turn. simpl.
  unfold is_turning in Hidle. apply bool_decide_eq_false in Hidle.
  apply dec_stable in Hidle. rewrite Hidle. simpl.
  rewrite orb_true_r. simpl. unfold _execute_initial_spin. simpl.
  destruct (_ <? _)%float; by eexists _, _.
Qed.

(** The same on a whole tick: the messages are taken in, no turn is in
    progress after that, the last command is ['forward'] and no sensor sees
    the line; the wheels then start a turn. *)
Lemma motion_tick_forward_without_line tc esp32_command msgs line_detected
    t tc1 :
  receive_commands msgs (tc, esp32_command) = Ret (tc1, "forward"%string) →
  is_turning tc1 = false →
  py_any line_detected = false →
  ∃ speeds tc',
    motion_tick tc esp32_command msgs line_detected t
    = Ret (speeds, tc', "forward"%string) ∧ is_turning tc' = true.
Proof.
  unfold motion_tick. intros -> Hidle Hline. simpl.
  rewrite resolve_forward_without_line by done.
  destruct (turn_left_starts_turn tc1 line_detected t Hidle)
    as (speeds & tc' & -> & Hturn).
  by exists speeds, tc'.
Qed.

(** With all sensors on the line, the adjustment goes on as long as the
    ticks come: the phase is never left. *)
Lemma adjusting_all_on_forever (ticks : list float) tc :
  current_phase tc = ADJUSTING_ON_LINE →
  foldl (λ r t, '(_, tc) ← r;
                execute_turn tc (active_command tc) [1; 1; 1] t)
        (Ret (None, tc)) ticks
  = Ret (match ticks with
         | [] => None
         | _ => Some (TURN_ADJUST_BASE_SPEED * 0.7,
                      TURN_ADJUST_BASE_SPEED * 0.7)%float
         end, tc).
Proof.
  intros Hphase.
  assert (∀ t, execute_turn tc (active_command tc) [1; 1; 1] t
               = Ret (Some (TURN_ADJUST_BASE_SPEED * 0.7,
                            TURN_ADJUST_BASE_SPEED * 0.7)%float, tc)) as Hstep.
  { intros t. unfold execute_turn. by rewrite Hphase. }
  destruct ticks as [|t ticks]; [done|]. simpl. rewrite Hstep.
  induction ticks as [|t' ticks IH]; [done|]. simpl. by rewrite Hstep.
Qed.

(** Claim C10.  With no turn in progress: when the remote command is
    ["forward"] and no line sensor sees the line, the effective command is
    ["turn_left"] and executing it starts a turn; and for a remote command
    of the protocol, the effective command is the remote command exactly
    when a line is seen or the command is a turn or ["stop"]. *)
Theorem forward_without_line_turns_left tc line_detected :
  is_turning tc = false →
  (py_any line_detected = false →
   resolve_effective_command tc "forward" line_detected
   = (Some "turn_left"%string, tc) ∧
   ∀ t, ∃ speeds tc',
     execute_movement tc (Some "turn_left"%string) line_detected t
     = Ret (speeds, tc') ∧ is_turning tc' = true) ∧
  (∀ esp32_command, esp32_command ∈ PROTOCOL_ACTIONS →
   (resolve_effective_command tc esp32_command line_detected).1
   = Some esp32_command ↔
   py_any line_detected = true ∨
   esp32_command ∈ ["turn_left"; "turn_right"; "stop"]%string).
Proof.
  intros Hidle. split.
  - intros Hline. split; [by apply resolve_forward_without_line|].
    intros t. by apply turn_left_starts_turn.
  - intros cmd Hcmd. unfold resolve_effective_command. rewrite Hidle.
    unfold PROTOCOL_ACTIONS in Hcmd.
    rewrite !elem_of_cons, elem_of_nil in Hcmd. rewrite !elem_of_cons, elem_of_nil.
    destruct Hcmd as [->|[->|[->|[->|[]]]]];
      destruct (py_any line_detected); simpl; split; intros H;
      try done; try (by left); try (by right; tauto);
      try (destruct H as [?|[?|[?|[?|[]]]]]; done).
Qed.

(** * Further results

    Properties of the same code beyond the claims. *)

(** ** SimplePriorityQueue *)

Lemma sort_insert_perm x q : sort_insert x q ≡ₚ x :: q.
Proof.
  induction q as [|y q IH]; simpl; [done|].
  destruct (priority x <=? priority y); [done|].
  rewrite IH. apply Permutation_swap.
Qed.

Lemma sort_insert_sorted x q :
  StronglySorted prio_le q → StronglySorted prio_le (sort_insert x q).
Proof.
  induction 1 as [|y q Hq IH Hy]; simpl; [repeat constructor|].
  destruct (Z.leb_spec (priority x) (priority y)) as [Hle|Hlt].
  - constructor; [by constructor|]. constructor; [done|].
    eapply Forall_impl; [done|]. unfold prio_le. simpl. lia.
  - constructor; [done|]. rewrite sort_insert_perm.
    constructor; [unfold prio_le; lia|done].
Qed.

Lemma sort_by_priority_spec q :
  StronglySorted prio_le (sort_by_priority q) ∧ sort_by_priority q ≡ₚ q.
Proof.
  unfold sort_by_priority. induction q as [|x q [IHs IHp]]; simpl.
  - split; [constructor|done].
  - split; [by apply sort_insert_sorted|]. by rewrite sort_insert_perm, IHp.
Qed.

(** [put] on any queue leaves it sorted by priority; nothing is lost and
    nothing but the new entry comes in. *)
Theorem pq_put_sorted_permutation q it pr :
  StronglySorted prio_le (pq_put q it pr) ∧
  pq_put q it pr ≡ₚ PqEntry it pr :: q.
Proof.
  unfold pq_put. destruct (sort_by_priority_spec (q ++ [PqEntry it pr]))
    as [Hs Hp].
  split; [done|]. rewrite Hp. by rewrite Permutation_app_comm.
Qed.

Lemma sort_insert_least x q :
  Forall (prio_le x) q → sort_insert x q = x :: q.
Proof.
  destruct q as [|y q]; simpl; [done|].
  intros [Hy _]%Forall_cons. unfold prio_le in Hy.
  by rewrite (proj2 (Z.leb_le _ _) Hy).
Qed.

Lemma filter_all {A} (P : A → Prop) `{∀ x, Decision (P x)} (l : list A) :
  Forall P l → filter P l = l.
Proof.
  induction 1 as [|x l Hx _ IH]; [done|]. by rewrite filter_cons_True, IH.
Qed.

Lemma filter_none {A} (P : A → Prop) `{∀ x, Decision (P x)} (l : list A) :
  Forall (λ x, ¬ P x) l → filter P l = [].
Proof.
  induction 1 as [|x l Hx _ IH]; [done|]. by rewrite filter_cons_False.
Qed.

Lemma pq_put_position q it pr :
  StronglySorted prio_le q →
  pq_put q it pr
  = filter (λ e, priority e ≤ pr) q
    ++ PqEntry it pr :: filter (λ e, pr < priority e) q.
Proof.
  unfold pq_put, sort_by_priority. rewrite foldr_app. simpl.
  induction 1 as [|y q Hq IH Hy]; simpl; [done|].
  rewrite IH, !filter_cons.
  destruct (decide (priority y ≤ pr)) as [Hle|Hgt].
  - rewrite decide_False by lia. simpl. apply sort_insert_least.
    apply Forall_app. split.
    + apply Forall_forall. intros e [_ He]%list_elem_of_filter.
      rewrite Forall_forall in Hy. by apply Hy.
    + constructor; [done|]. apply Forall_forall.
      intros e [_ He]%list_elem_of_filter.
      rewrite Forall_forall in Hy. by apply Hy.
  - rewrite decide_True by lia.
    assert (filter (λ e, priority e ≤ pr) q = []) as ->.
    { apply filter_none. eapply Forall_impl; [done|].
      unfold prio_le. simpl. lia. }
    assert (filter (λ e, pr < priority e) q = q) as ->.
    { apply filter_all. eapply Forall_impl; [done|].
      unfold prio_le. simpl. lia. }
    simpl. destruct (Z.leb_spec (priority y) pr) as [|_]; [lia|].
    by rewrite sort_insert_least.
Qed.

(** On a sorted queue, as every queue built with [put] is: the new entry
    goes behind all entries whose priority is not larger, so entries of
    equal priority leave in the order they came; and [get] hands out an
    entry of least priority. *)
Theorem pq_fifo_among_equals q it pr :
  StronglySorted prio_le q →
  pq_put q it pr
  = filter (λ e, priority e ≤ pr) q
    ++ PqEntry it pr :: filter (λ e, pr < priority e) q ∧
  ∀ x q', pq_get q = (Some x, q') →
    ∃ e, q = e :: q' ∧ item e = x ∧ Forall (prio_le e) q' ∧
         StronglySorted prio_le q'.
Proof.
  intros Hq. split; [by apply pq_put_position|].
  intros x q' Hget. destruct q as [|e q]; simpl in Hget; [done|].
  injection Hget as <- <-. apply StronglySorted_cons in Hq as [? ?].
  by exists e.
Qed.

(** ** get_valid_neighbors and dijkstra *)

Lemma shift_inj u : Inj (=) (=) (shift u).
Proof. intros [a b] [c d] [=]. f_equal; lia. Qed.

Lemma nbr_cells_NoDup g u : NoDup (nbr_cells g u).
Proof.
  unfold nbr_cells. apply NoDup_filter, NoDup_fmap_2; [apply shift_inj|].
  unfold DIRECTIONS. apply (bool_decide_unpack _). by vm_compute.
Qed.

(** On a rectangular grid [get_valid_neighbors] raises nothing, for any
    cell, on the grid or off it; it returns, each once and with cost 1,
    exactly the pathable cells one row or one column away: at most four,
    and no diagonal one. *)
Theorem get_valid_neighbors_exact g u :
  rectangular g →
  ∃ nbrs,
    get_valid_neighbors u.1 u.2 (grid_rows g) (grid_cols g) g = Ret nbrs ∧
    (length nbrs ≤ 4)%nat ∧ NoDup nbrs ∧
    ∀ v c, (v, c) ∈ nbrs ↔ c = 1 ∧ unit_step u v ∧ pathable g v.
Proof.
  intros Hrect. eexists. split; [by apply get_valid_neighbors_spec|].
  split; [|split].
  - rewrite length_fmap. unfold nbr_cells.
    etrans; [apply length_filter|]. by rewrite length_fmap.
  - apply NoDup_fmap_2; [by intros ?? [=]|]. apply nbr_cells_NoDup.
  - intros v c. rewrite list_elem_of_fmap. split.
    + intros (v' & [= -> ->] & Hv). by apply elem_of_nbr_cells in Hv.
    + intros (-> & Hv). exists v. split; [done|]. by apply elem_of_nbr_cells.
Qed.

Lemma is_path_drop g s e p (j : nat) x :
  is_path g s e p → p !! j = Some x → is_path g x e (drop j p).
Proof.
  intros Hp. revert j. induction Hp as [n Hn | a b e p Ha Hab Hp IH]; intros j.
  - destruct j as [|j]; simpl; [|done]. intros [= <-]. by constructor.
  - destruct j as [|j]; simpl.
    + intros [= <-]. by apply is_path_cons with b.
    + apply IH.
Qed.

Lemma is_path_app g s x e p1 p2 :
  is_path g s x p1 → is_path g x e p2 → is_path g s e (p1 ++ tail p2).
Proof.
  induction 1 as [n Hn | a b x p Ha Hab Hp IH]; intros Hp2; simpl.
  - by inversion Hp2; subst.
  - apply is_path_cons with b; [done..|]. by apply IH.
Qed.

(** A shortest path passes no cell twice. *)
Lemma shortest_path_NoDup g s e p :
  is_path g s e p →
  (∀ q, is_path g s e q → (length p ≤ length q)%nat) →
  NoDup p.
Proof.
  intros Hp Hmin.
  assert (∀ (i j : nat) x, (i < j)%nat → p !! i = Some x → p !! j = Some x → False)
    as Hlt.
  { intros i j x Hij Hi Hj.
    pose proof (is_path_app _ _ _ _ _ _
                  (is_path_take _ _ _ _ _ _ Hp Hi) (is_path_drop _ _ _ _ _ _ Hp Hj))
      as Hq.
    apply Hmin in Hq. apply lookup_lt_Some in Hj.
    assert (tail (drop j p) = drop (j + 1) p) as Htl.
    { rewrite <- drop_drop. by destruct (drop j p). }
    rewrite Htl, length_app, length_take, length_drop in Hq. lia. }
  apply NoDup_alt. intros i j x Hi Hj.
  destruct (Nat.lt_trichotomy i j) as [?|[?|?]]; [|done|]; exfalso; eauto.
Qed.

(** Whatever the endpoints, a non-empty answer of [dijkstra] is a path from
    the start to the goal over pathable cells in unit steps; it passes no
    cell twice and is no longer than the grid has cells. *)
Theorem dijkstra_sound g s e p :
  rectangular g → dijkstra g s e = Ret p → p ≠ [] →
  valid_path g s e p ∧ NoDup p ∧
  (length p ≤ length g * length (default [] (g !! 0%nat)))%nat.
Proof.
  intros Hrect Hd Hne.
  destruct (dijkstra_total g s e Hrect) as (p' & Hd' & Hcases).
  rewrite Hd in Hd'. injection Hd' as <-.
  destruct Hcases as [?|[Hp Hmin]]; [done|].
  pose proof (shortest_path_NoDup _ _ _ _ Hp Hmin) as Hnd.
  split; [by apply is_path_valid|]. split; [done|].
  apply cells_length_bound; [done|].
  destruct (is_path_valid _ _ _ _ Hp) as (_ & _ & Hf & _).
  eapply Forall_impl; [done|]. by intros n [? _].
Qed.

(** From a pathable cell to itself the path is that cell alone. *)
Theorem dijkstra_same_cell g s :
  rectangular g → pathable g s → dijkstra g s s = Ret [s].
Proof.
  intros Hrect Hs.
  destruct (dijkstra_fuel_valid g s s (grid_fuel g) Hrect Hs Hs (le_n _))
    as [(p & Hd & Hp & Hmin)|[_ Hno]].
  - unfold dijkstra. rewrite Hd. f_equal.
    specialize (Hmin [s] (is_path_one g s Hs)).
    destruct (is_path_head _ _ _ _ Hp) as [p' ->].
    destruct p'; [done|]. simpl in Hmin. lia.
  - destruct (Hno [s]). by constructor.
Qed.

Lemma search_loop_mono rows cols g e fuel : ∀ fuel' s r,
  search_loop fuel rows cols g e s = Ret r → (fuel ≤ fuel')%nat →
  search_loop fuel' rows cols g e s = Ret r.
Proof.
  induction fuel as [|fuel IH]; intros fuel' s r Hrun Hle; [done|].
  destruct fuel' as [|fuel']; [lia|]. simpl in *.
  destruct (pq_is_empty (pq s)); [done|].
  destruct (pq_get (pq s)) as [[current|] q']; [|done].
  destruct (decide (current = e)); [done|].
  destruct (get_valid_neighbors _ _ _ _ _) as [nbrs| |]; [|done..].
  simpl in *. destruct (relax current nbrs _) as [s'| |]; [|done..].
  simpl in *. apply IH; [done|lia].
Qed.

Lemma reconstruct_mono cf fuel : ∀ fuel' node acc r,
  reconstruct fuel cf node acc = Ret r → (fuel ≤ fuel')%nat →
  reconstruct fuel' cf node acc = Ret r.
Proof.
  induction fuel as [|fuel IH]; intros fuel' node acc r Hrun Hle.
  - destruct node; [done|]. by rewrite reconstruct_None in *.
  - destruct fuel' as [|fuel']; [lia|]. destruct node as [n|]; [|done].
    simpl in *. apply IH; [done|lia].
Qed.

Lemma dijkstra_fuel_mono g s e fuel fuel' p :
  dijkstra_fuel fuel g s e = Ret p → (fuel ≤ fuel')%nat →
  dijkstra_fuel fuel' g s e = Ret p.
Proof.
  unfold dijkstra_fuel. intros Hrun Hle.
  destruct (py_index g 0) as [row0| |]; [|done..]. simpl in *.
  destruct (valid_node g _ _ s) as [[]| |]; [|done..]; simpl in *.
  destruct (valid_node g _ _ e) as [[]| |]; [|done..]; simpl in *.
  destruct (search_loop fuel _ _ _ _ _) as [[found s']| |] eqn:Hloop; [|done..].
  rewrite (search_loop_mono _ _ _ _ _ _ _ _ Hloop Hle). simpl in *.
  destruct found; [|done]. simpl in *.
  destruct (reconstruct fuel _ _ _) as [path| |] eqn:Hrec; [|done..].
  by rewrite (reconstruct_mono _ _ _ _ _ _ Hrec Hle).
Qed.

(** On a rectangular grid [dijkstra] always returns a list, for any two
    cells: no lookup in the grid or in the cost and predecessor
    dictionaries raises, and both loops end.  The bound the model puts on
    the loops is never reached: any larger one gives the same list. *)
Theorem dijkstra_returns g s e :
  rectangular g →
  ∃ p, dijkstra g s e = Ret p ∧
       ∀ fuel, (grid_fuel g ≤ fuel)%nat → dijkstra_fuel fuel g s e = Ret p.
Proof.
  intros Hrect. destruct (dijkstra_total g s e Hrect) as (p & Hd & _).
  exists p. split; [done|]. intros fuel Hle. by eapply dijkstra_fuel_mono.
Qed.

(** ** The planning loop *)

Lemma is_path_end g s e p : is_path g s e p → pathable g e.
Proof. induction 1; auto. Qed.

Lemma dijkstra_reachable g s e q :
  rectangular g → is_path g s e q →
  ∃ p, dijkstra g s e = Ret p ∧ is_path g s e p ∧
       ∀ q, is_path g s e q → (length p ≤ length q)%nat.
Proof.
  intros Hrect Hq.
  destruct (dijkstra_fuel_valid g s e (grid_fuel g) Hrect
              (is_path_start _ _ _ _ Hq) (is_path_end _ _ _ _ Hq) (le_n _))
    as [(p & Hd & Hp & Hmin)|[_ Hno]].
  - by exists p.
  - by destruct (Hno q).
Qed.

Lemma stop_in_protocol : "stop"%string ∈ PROTOCOL_ACTIONS.
Proof. unfold PROTOCOL_ACTIONS. set_solver. Qed.

Section PlannerMore.
Context {pf : PyFloat}.

(** [get_action_from_path] writes no global but the cursor, whatever the
    globals hold: the cursor stays, or moves forward to a later place of
    the path that holds the position.  It returns the position it was given
    and one of the four actions of the protocol, or it raises.  An action
    other than ['stop'] is the action for the angular error of the path
    segment at the cursor, which starts at the position, not the goal; and
    the only exception is the one that the sine or the cosine raises while
    that error is computed. *)
Theorem get_action_from_path_safe pos θ sens st r st' :
  get_action_from_path pos θ sens st = (r, st') →
  ∃ i,
    st' = set_path_index i st ∧
    (i = current_path_index st ∨
     (current_path_index st < i < Z.of_nat (length (planned_path st)) ∧
      planned_path st !! Z.to_nat i = pos)) ∧
    match r with
    | Ret (a, n) =>
        n = pos ∧ a ∈ PROTOCOL_ACTIONS ∧
        (a ≠ "stop"%string →
         ∃ cur nxt err, pos = Some cur ∧ goal_grid_pos st ≠ Some cur ∧
           path_segment (planned_path st) i cur nxt ∧
           angular_error cur nxt θ = Ret err ∧ a = action_for_error err)
    | Raise e =>
        ∃ cur nxt, pos = Some cur ∧ goal_grid_pos st ≠ Some cur ∧
          path_segment (planned_path st) i cur nxt ∧
          angular_error cur nxt θ = Raise e
    | OutOfFuel =>
        ∃ cur nxt, pos = Some cur ∧ goal_grid_pos st ≠ Some cur ∧
          path_segment (planned_path st) i cur nxt ∧
          angular_error cur nxt θ = OutOfFuel
    end.
Proof.
  destruct (get_action_from_path_cases pos θ sens st)
    as (r0 & i & -> & Hi & Hr).
  intros [= <- <-]. exists i. split; [done|]. split.
  { destruct Hi as [?|(? & ? & _)]; [by left|by right]. }
  destruct Hr as [->|(cur & nxt & Hcur & Hg & Hi0 & Hlc & Hln & Hstep & ->)].
  { split; [done|]. split; [apply stop_in_protocol|done]. }
  assert (path_segment (planned_path st) i cur nxt) as Hseg by done.
  destruct (angular_error cur nxt θ) as [err| |] eqn:Herr; simpl.
  - split; [done|]. split; [apply action_for_error_protocol|].
    intros _. by exists cur, nxt, err.
  - by exists cur, nxt.
  - by exists cur, nxt.
Qed.



(** When the goal can be reached from the reported position, the
    replanning block installs a shortest path that starts at that position,
    with the cursor on its first cell, the believed position on it, the
    replan flag cleared and the time of the replan recorded: a path from
    [dijkstra] starts where the robot is, and the branch that searches the
    path for the robot is never taken. *)
Theorem replan_installs_shortest_path now st a gl :
  current_robot_grid_pos_actual st = Some a →
  goal_grid_pos st = Some gl →
  reachable grid_map a gl →
  ∃ p, valid_path grid_map a gl p ∧
       (∀ q, valid_path grid_map a gl q → (length p ≤ length q)%nat) ∧
       replan now st
       = (Ret tt, Planner (Some a) (Some a) (Some gl) p 0 false now).
Proof.
  intros Ha Hg [q Hq%valid_path_is_path].
  destruct (dijkstra_reachable _ _ _ _ grid_map_rectangular Hq)
    as (p & Hd & Hp & Hmin).
  exists p. split; [by apply is_path_valid|].
  split; [intros q' Hq'%valid_path_is_path; by apply Hmin|].
  unfold replan. munfold. rewrite Ha, Hg, Hd. simpl.
  destruct (is_path_head _ _ _ _ Hp) as [p' ->]. simpl.
  rewrite bool_decide_eq_true_2 by done. simpl.
  destruct st; simpl in *. by subst.
Qed.



(** [update_belief] raises the replan flag exactly when the goal differs
    from the stored one, or the reported position differs from the stored
    one and lies more than one row or one column from the believed path
    position; it never clears the flag, and leaves the path, the cursor and
    the time of the last replan as they are. *)
Theorem update_belief_replan_flag m st :
  path_needs_replan (update_belief m st)
  = path_needs_replan st
    || bool_decide (goal_grid_pos st ≠ Some (status_goal_grid_pos m))
    || (bool_decide (current_robot_grid_pos_actual st ≠ Some (robot_grid_pos m))
        && match current_robot_grid_pos_path st with
           | Some p => (1 <? Z.abs ((robot_grid_pos m).1 - p.1))
                       || (1 <? Z.abs ((robot_grid_pos m).2 - p.2))
           | None => false
           end) ∧
  planned_path (update_belief m st) = planned_path st ∧
  current_path_index (update_belief m st) = current_path_index st ∧
  last_replan_time (update_belief m st) = last_replan_time st.
Proof.
  unfold update_belief.
  destruct st as [[a|] [pp|] [gl|] ? ? flag ?]; simpl;
    repeat (case_bool_decide; simpl); repeat (case_match; simpl);
    simpl in *; destruct flag; simpl; (split; [|done]);
    first [done | congruence].
Qed.

(** A status message that repeats the position and the goal of the one
    before changes nothing in the belief. *)
Theorem update_belief_idempotent m st :
  update_belief m (update_belief m st) = update_belief m st.
Proof.
  pose proof (update_belief_actual m st) as Ha.
  pose proof (update_belief_goal m st) as Hg.
  assert (is_Some (current_robot_grid_pos_path (update_belief m st))) as [c Hc].
  { unfold update_belief. destruct st as [[a|] [pp|] [gl|] ? ? ? ?]; simpl;
      repeat (case_bool_decide; simpl); repeat (case_match; simpl);
      simpl in *; eauto; congruence. }
  destruct (update_belief m st) as [a' pp' gl' ? ? ? ?]. simpl in *. subst.
  unfold update_belief. simpl.
  rewrite (bool_decide_eq_false_2 (Some (robot_grid_pos m) ≠ _))
    by (intros H; by apply H).
  simpl.
  rewrite (bool_decide_eq_false_2 (Some (status_goal_grid_pos m) ≠ _))
    by (intros H; by apply H).
  done.
Qed.

(** In every state the server loop can reach, the planned path is empty,
    or it is a shortest path of [grid_map] that ends at the stored goal and
    passes no cell twice, and the cursor lies on it, on the cell that the
    planner believes the robot is on. *)
Theorem server_loop_invariant sv :
  reachable_server sv →
  planned_path (globals sv) = [] ∨
  ∃ s gl c,
    goal_grid_pos (globals sv) = Some gl ∧
    valid_path grid_map s gl (planned_path (globals sv)) ∧
    NoDup (planned_path (globals sv)) ∧
    (∀ q, valid_path grid_map s gl q →
          (length (planned_path (globals sv)) ≤ length q)%nat) ∧
    current_robot_grid_pos_path (globals sv) = Some c ∧
    0 ≤ current_path_index (globals sv)
      < Z.of_nat (length (planned_path (globals sv))) ∧
    planned_path (globals sv) !! Z.to_nat (current_path_index (globals sv))
    = Some c.
Proof.
  intros Hr.
  destruct (reachable_synced sv Hr) as [?|(c & Hc & Hi & Hlook)]; [by left|].
  destruct (reachable_route sv Hr) as [?|(s & gl & Hg & Hp & Hmin)]; [by left|].
  right. exists s, gl, c. split; [done|]. split; [by apply is_path_valid|].
  split; [by eapply shortest_path_NoDup|].
  split; [intros q Hq%valid_path_is_path; by apply Hmin|].
  split; [done|]. split; [|done].
  apply lookup_lt_Some in Hlook. lia.
Qed.

End PlannerMore.

(** ** The motion node: coordinates and obstacles *)

Section ObstacleMore.
Context {bm : BotMath}.

(** Whatever the coordinates, far outside the arena included,
    [world_to_grid] returns a cell of the grid. *)
Theorem world_to_grid_in_grid world_x world_z c :
  world_to_grid world_x world_z = Ret c →
  in_grid grid_map c ∧ _is_valid_position c = true.
Proof.
  unfold world_to_grid.
  destruct (py_round _) as [row| |], (py_round _) as [col| |]; simpl;
    try done.
  intros [= <-].
  unfold in_grid, _is_valid_position, grid_rows, grid_cols, GRID_ROWS,
    GRID_COLS. simpl.
  rewrite !andb_true_iff, !Z.leb_le, !Z.ltb_lt. lia.
Qed.

Lemma _calculate_obstacle_position_cases row col θ k :
  0 ≤ k < 3 →
  ∃ p, _calculate_obstacle_position row col θ k = Ret p ∧
       Z.max (Z.abs (p.1 - row)) (Z.abs (p.2 - col)) = 1 ∧
       (unit_step (row, col) p ↔ k = 0).
Proof.
  intros Hk. unfold _calculate_obstacle_position.
  assert (k = 0 ∨ k = 1 ∨ k = 2) as Hcases by lia.
  destruct Hcases as [-> | [-> | ->]];
    (destruct (_ || _); [|destruct (_ && _); [|destruct (_ && _)]]);
    simpl; eexists; (split; [reflexivity|]); simpl;
    (split; [lia|]); unfold unit_step; simpl; split; lia.
Qed.

(** The cell an obstacle sensor points at touches the robot's cell: for
    the front sensor (index 0) it is the next cell of the same row or
    column, for the two side sensors a diagonal one.  An index past the
    three sensors raises [IndexError]. *)
Theorem obstacle_position_adjacent row col θ k :
  0 ≤ k →
  if k <? 3
  then ∃ p, _calculate_obstacle_position row col θ k = Ret p ∧
            Z.max (Z.abs (p.1 - row)) (Z.abs (p.2 - col)) = 1 ∧
            (unit_step (row, col) p ↔ k = 0)
  else _calculate_obstacle_position row col θ k = Raise IndexError.
Proof.
  intros Hk. destruct (Z.ltb_spec k 3) as [Hlt|Hge].
  - by apply _calculate_obstacle_position_cases.
  - unfold _calculate_obstacle_position.
    assert (∀ l : list (Z * Z), length l = 3%nat →
            py_index l k = Raise IndexError) as Hout.
    { intros l Hl. unfold py_index.
      destruct (Z.ltb_spec k 0); [lia|]. destruct (Z.ltb_spec k 0); [lia|].
      rewrite lookup_ge_None_2; [done|lia]. }
    rewrite Hout; [done|]. by repeat case_match.
Qed.

Lemma sensors_loop_sound distance_values :
  ∀ sensor_index row col o acc d,
  0 ≤ sensor_index →
  sensor_index + Z.of_nat (length distance_values) ≤ 3 →
  ∃ added d',
    sensors_loop sensor_index distance_values row col o acc d
    = Ret (acc ++ added, d') ∧
    Forall (λ x, _is_valid_position x = true ∧
                 Z.max (Z.abs (x.1 - row)) (Z.abs (x.2 - col)) = 1) added.
Proof.
  induction distance_values as [|v rest IH];
    intros idx row col o acc d Hidx Hlen; simpl in *.
  { exists [], d. by rewrite app_nil_r. }
  assert (∃ added d',
            sensors_loop (idx + 1) rest row col o acc d
            = Ret (acc ++ added, d') ∧
            Forall (λ x, _is_valid_position x = true ∧
                         Z.max (Z.abs (x.1 - row)) (Z.abs (x.2 - col)) = 1)
                   added) as Hskip by (apply IH; lia).
  destruct (DISTANCE_SENSOR_THRESHOLD <? v)%float; [|done].
  destruct (_calculate_obstacle_position_cases row col o idx)
    as (pos & -> & Hadj & _); [lia|].
  simpl. destruct (_is_valid_position pos) eqn:Hvalid; [|done].
  destruct (decide (pos ∉ detected_obstacles d)) as [Hnew|_]; [|done].
  destruct (IH (idx + 1) row col o (acc ++ [pos])
              (Detector ({[pos]} ∪ detected_obstacles d) (recent_obstacles d)))
    as (added & d' & -> & Hadded); [lia..|].
  exists (pos :: added), d'. rewrite <- app_assoc. split; [done|].
  by constructor.
Qed.

(** With the readings of the three obstacle sensors
    [process_sensor_readings] raises nothing once the robot's cell is
    known.  Every obstacle it returns is a cell of the grid that touches
    the robot's cell and was not detected before; none is returned twice;
    the returned cells are added to the detected ones and the queue of
    recent obstacles is left alone. *)
Theorem process_sensor_readings_sound d p o distance_values cur :
  (length distance_values ≤ 3)%nat →
  world_to_grid (pose_x p) (pose_z p) = Ret cur →
  ∃ new d',
    process_sensor_readings d p o distance_values = Ret (new, d') ∧
    Forall (λ x, in_grid grid_map x ∧
                 Z.max (Z.abs (x.1 - cur.1)) (Z.abs (x.2 - cur.2)) = 1 ∧
                 x ∉ detected_obstacles d) new ∧
    NoDup new ∧
    detected_obstacles d' = detected_obstacles d ∪ list_to_set new ∧
    recent_obstacles d' = recent_obstacles d.
Proof.
  intros Hlen Hcur.
  destruct cur as [row col].
  destruct (sensors_loop_sound distance_values 0 row col o [] d)
    as (new & d' & Hloop & Hsound); [lia..|].
  assert (process_sensor_readings d p o distance_values = Ret (new, d'))
    as Hrun.
  { unfold process_sensor_readings. simpl. by rewrite Hcur. }
  exists new, d'. split; [done|].
  apply process_sensor_readings_spec in Hrun as (Hnd & Hfresh & Hdet & Hrec).
  split; [|done].
  apply Forall_forall. intros x Hx.
  rewrite Forall_forall in Hsound. destruct (Hsound x Hx) as [Hv Hadj].
  split; [|split; [done|by apply Hfresh]].
  unfold _is_valid_position in Hv.
  rewrite !andb_true_iff, !Z.leb_le, !Z.ltb_lt in Hv.
  unfold in_grid, grid_rows, grid_cols, GRID_ROWS, GRID_COLS in *. simpl. lia.
Qed.



End ObstacleMore.

(** [world_to_grid] undoes [grid_to_world_center] on every cell of the
    grid, with [round] and the arithmetic of binary64 floats. *)
Theorem world_to_grid_of_center row col :
  0 ≤ row < GRID_ROWS → 0 ≤ col < GRID_COLS →
  world_to_grid (bm := binary64_math)
    (grid_to_world_center row col).1 (grid_to_world_center row col).2
  = Ret (row, col).
Proof.
  intros Hrow Hcol.
  assert (forallb (λ c : cell,
            match world_to_grid (bm := binary64_math)
                    (grid_to_world_center c.1 c.2).1
                    (grid_to_world_center c.1 c.2).2 with
            | Ret c' => bool_decide (c' = c)
            | _ => false
            end) (list_prod (seqZ 0 GRID_ROWS) (seqZ 0 GRID_COLS)) = true)
    as Hall by (by vm_compute).
  rewrite forallb_forall in Hall.
  assert (In (row, col) (list_prod (seqZ 0 GRID_ROWS) (seqZ 0 GRID_COLS)))
    as Hin.
  { apply in_prod; apply list_elem_of_In, elem_of_seqZ; lia. }
  apply Hall in Hin. simpl in Hin.
  destruct (world_to_grid _ _) as [c'| |]; [|done..].
  f_equal. by apply bool_decide_eq_true in Hin.
Qed.

(** ** The motion node: turns and commands *)


(** A turn, once started, is ended by [execute_turn] in one case only: in
    the adjustment phase, with the line under the centre sensor alone; the
    wheels then run forward at the same speed.  No elapsed time ends it.
    And [execute_turn] never returns [None] for the speeds. *)
Theorem turn_ends_only_on_centred_line tc dir sens t sp tc' :
  is_turning tc = true →
  execute_turn tc dir sens t = Ret (sp, tc') →
  is_Some sp ∧
  (is_turning tc' = false →
   current_phase tc = ADJUSTING_ON_LINE ∧
   ∃ l c r, sens = [l; c; r] ∧
     truthy l = false ∧ truthy c = true ∧ truthy r = false ∧
     sp = Some (TURN_ADJUST_BASE_SPEED * 0.3,
                TURN_ADJUST_BASE_SPEED * 0.3)%float).
Proof.
  unfold is_turning, execute_turn. intros Hturn%bool_decide_eq_true.
  destruct (current_phase tc) eqn:Hphase; [done| | |].
  - unfold _execute_initial_spin. intros [= <- <-]. split; [done|].
    by destruct (_ <? _)%float; simpl; rewrite ?Hphase.
  - unfold _execute_line_search, TURN_UNTIL_LINE_FOUND. simpl.
    destruct (py_any sens); intros [= <- <-]; (split; [done|]);
      simpl; by rewrite ?Hphase.
  - unfold _execute_line_adjustment.
    destruct sens as [|l [|c [|r [|]]]]; [done..| |done].
    unfold returned_or, adjustment_chain, py_any. simpl.
    destruct (truthy l) eqn:Hl, (truthy c) eqn:Hc, (truthy r) eqn:Hr; simpl;
      intros [= <- <-]; (split; [done|]); simpl; rewrite ?Hphase;
      try done.
    intros _. split; [done|]. by exists l, c, r.
Qed.




(** When the command in force after the messages of the tick is ['stop'],
    both wheels are stopped in that tick and a turn in progress is
    abandoned, whatever the sensors read. *)
Theorem stop_command_halts tc esp32_command msgs line_detected t tc1 :
  receive_commands msgs (tc, esp32_command) = Ret (tc1, "stop"%string) →
  ∃ tc',
    motion_tick tc esp32_command msgs line_detected t
    = Ret ((0, 0)%float, tc', "stop"%string) ∧
    is_turning tc' = false ∧ active_command tc' = None.
Proof.
  unfold motion_tick. intros ->. simpl.
  unfold resolve_effective_command.
  destruct (is_turning tc1).
  - rewrite bool_decide_eq_true_2 by done.
    unfold execute_movement. rewrite bool_decide_eq_true_2 by done.
    simpl. by exists (reset (reset tc1)).
  - assert (is_turn_command "stop" = false) as -> by done.
    rewrite (bool_decide_eq_true_2 ("stop"%string = "stop"%string)) by done.
    rewrite (bool_decide_eq_false_2 ("stop"%string = "forward"%string))
      by done.
    simpl. rewrite !andb_false_r.
    unfold execute_movement. rewrite bool_decide_eq_true_2 by done.
    simpl. by exists (reset tc1).
Qed.



(** Line following is symmetric: with the left and the right sensor
    exchanged, the speeds of the two wheels are exchanged. *)
Theorem line_following_mirror l c r :
  ∃ left_speed right_speed,
    calculate_line_following_speeds [l; c; r]
    = Ret (left_speed, right_speed) ∧
    calculate_line_following_speeds [r; c; l]
    = Ret (right_speed, left_speed).
Proof.
  unfold calculate_line_following_speeds, py_any. simpl.
  destruct (truthy l), (truthy c), (truthy r); simpl; eauto.
Qed.

(** A turn command met when no turn is in progress starts one towards
    the commanded side: the wheel on that side runs backward and the other
    forward, and the controller is left turning with that command. *)
Theorem turn_spins_towards_command tc turn_direction line_detected t :
  is_turn_command turn_direction = true →
  is_turning tc = false →
  ∃ left_speed right_speed tc',
    execute_movement tc (Some turn_direction) line_detected t
    = Ret ((left_speed, right_speed), tc') ∧
    is_turning tc' = true ∧ active_command tc' = Some turn_direction ∧
    (if bool_decide (turn_direction = "turn_left"%string)
     then (left_speed <? 0) && (0 <? right_speed)
     else (right_speed <? 0) && (0 <? left_speed))%float = true.
Proof.
  unfold is_turn_command, is_turning.
  intros Hdir%orb_true_iff Hidle%bool_decide_eq_false.
  assert (current_phase tc = NONE) as Hphase.
  { by destruct (current_phase tc); [|destruct Hidle..]. }
  unfold execute_movement, initiate_turn. rewrite Hphase.
  rewrite (bool_decide_eq_true_2 (NONE = NONE)) by done.
  rewrite orb_true_r.
  destruct Hdir as [->%bool_decide_eq_true| ->%bool_decide_eq_true].
  - rewrite !(bool_decide_eq_false_2 (Some "turn_left"%string = Some _))
      by done.
    rewrite (bool_decide_eq_true_2 (Some "turn_left"%string = Some _))
      by done.
    simpl. unfold execute_turn, _execute_initial_spin. simpl.
    destruct (_ <? _)%float; simpl; eexists _, _, _;
      (split; [reflexivity|]); simpl; (split; [done|]); (split; [done|]);
      by vm_compute.
  - rewrite !(bool_decide_eq_false_2 (Some "turn_right"%string = Some _))
      by done.
    rewrite (bool_decide_eq_true_2 (Some "turn_right"%string = Some _))
      by done.
    rewrite orb_true_r.
    simpl. unfold execute_turn, _execute_initial_spin. simpl.
    destruct (_ <? _)%float; simpl; eexists _, _, _;
      (split; [reflexivity|]); simpl; (split; [done|]); (split; [done|]);
      by vm_compute.
Qed.

(** While a turn is in progress, a command that asks for a turn, to
    either side, changes nothing in what the robot does: the tick carries
    on with the turn that was started. *)
Theorem turn_in_progress_ignores_new_turn tc old_command new_command
    started line_detected t :
  is_turning tc = true →
  active_command tc = Some started →
  is_turn_command started = true →
  is_turn_command new_command = true →
  motion_tick tc old_command [CommandMessage new_command] line_detected t
  = '(speeds, tc') ← execute_turn tc (Some started) line_detected t;
    match speeds with
    | Some speeds => Ret (speeds, tc', new_command)
    | None => Raise TypeError
    end.
Proof.
  intros Hturn Hactive Hstarted Hnew.
  assert (∀ c, is_turn_command c = true →
               c ≠ "stop"%string ∧ c ≠ "forward"%string) as Hnot.
  { intros c Hc. split; intros ->; discriminate Hc. }
  destruct (Hnot _ Hstarted) as [Hs1 Hs2].
  destruct (Hnot _ Hnew) as [Hn1 Hn2].
  unfold motion_tick. simpl.
  rewrite Hnew. simpl. rewrite andb_false_r.
  unfold resolve_effective_command. rewrite Hturn.
  rewrite (bool_decide_eq_false_2 (new_command = "stop"%string)) by done.
  rewrite Hactive. unfold execute_movement.
  rewrite (bool_decide_eq_false_2 (Some started = Some "stop"%string))
    by congruence.
  rewrite (bool_decide_eq_false_2 (Some started = Some "forward"%string))
    by congruence.
  assert (bool_decide (Some started = Some "turn_left"%string)
          || bool_decide (Some started = Some "turn_right"%string) = true)
    as ->.
  { unfold is_turn_command in Hstarted.
    apply orb_true_iff in Hstarted as [->%bool_decide_eq_true
                                      | ->%bool_decide_eq_true]; done. }
  assert (initiate_turn tc (Some started) t = tc) as ->.
  { unfold initiate_turn, is_turning in *.
    apply bool_decide_eq_true in Hturn.
    rewrite (bool_decide_eq_false_2 (active_command tc ≠ Some started))
      by (intros H; by apply H).
    by rewrite (bool_decide_eq_false_2 (current_phase tc = NONE)). }
  by destruct (execute_turn tc (Some started) line_detected t)
    as [[[sp|] tc']| |].
Qed.

(** ** The framing of messages *)

Section FramingFacts.
Variable py_isspace : Z → bool.

Lemma py_split_no_sep sep s : Forall (λ w, sep ∉ w) (py_split sep s).
Proof.
  induction s as [|c s IH]; simpl.
  - constructor; [set_solver|constructor].
  - destruct (Z.eqb_spec c sep) as [->|Hne].
    + constructor; [set_solver|done].
    + destruct (py_split sep s) as [|w ws].
      * constructor; [set_solver|constructor].
      * apply Forall_cons in IH as [Hw Hws]. constructor; [set_solver|done].
Qed.

(** What [receive_data] returns is a list of messages none of which is
    blank or holds a newline; the connection is marked as lost only by an
    exception other than a timeout, and then no message is returned. *)
Theorem receive_data_clean nm r :
  (Forall (λ msg, (NEWLINE ∉ msg) ∧ py_strip py_isspace msg ≠ [])
          (receive_data py_isspace nm r).1) ∧
  (r = OtherException →
   receive_data py_isspace nm r = ([], NetworkManager false)) ∧
  (r ≠ OtherException → (receive_data py_isspace nm r).2 = nm).
Proof.
  split; [|split].
  2:{ by intros ->. }
  2:{ intros Hr. destruct r as [text| |]; simpl; [|done..].
      by case_bool_decide. }
  destruct r as [text| |]; simpl; [|by constructor..].
  case_bool_decide; simpl; [|by constructor].
  unfold split_messages. apply Forall_forall.
  intros msg [Hmsg Hin]%list_elem_of_filter. split; [|done].
  pose proof (py_split_no_sep NEWLINE (py_strip py_isspace text)) as Hall.
  rewrite Forall_forall in Hall. by apply Hall.
Qed.

Lemma py_rstrip_nonspace_end s c :
  py_isspace c = false → py_rstrip py_isspace (s ++ [c]) = s ++ [c].
Proof.
  intros Hc. induction s as [|a s IH]; simpl; [by rewrite Hc|].
  rewrite IH. by destruct s.
Qed.

Lemma py_rstrip_space_end s c :
  py_isspace c = true →
  py_rstrip py_isspace (s ++ [c]) = py_rstrip py_isspace s.
Proof.
  intros Hc. induction s as [|a s IH]; simpl; [by rewrite Hc|].
  by rewrite IH.
Qed.

Lemma py_rstrip_app s t :
  py_rstrip py_isspace t ≠ [] →
  py_rstrip py_isspace (s ++ t) = s ++ py_rstrip py_isspace t.
Proof.
  intros Ht. induction s as [|a s IH]; simpl; [done|].
  rewrite IH. destruct (s ++ py_rstrip py_isspace t) eqn:Heq; [|done].
  by apply app_eq_nil in Heq as [_ ?].
Qed.

Lemma py_split_app sep m rest :
  sep ∉ m → py_split sep (m ++ sep :: rest) = m :: py_split sep rest.
Proof.
  induction m as [|a m IH]; intros Hm; simpl.
  - by rewrite Z.eqb_refl.
  - apply not_elem_of_cons in Hm as [Ha Hm].
    destruct (Z.eqb_spec a sep) as [->|_]; [done|]. by rewrite IH.
Qed.

Lemma py_split_one sep m : sep ∉ m → py_split sep m = [m].
Proof.
  induction m as [|a m IH]; intros Hm; simpl; [done|].
  apply not_elem_of_cons in Hm as [Ha Hm].
  destruct (Z.eqb_spec a sep) as [->|_]; [done|]. by rewrite IH.
Qed.

Lemma py_strip_framed m :
  (∃ c, head m = Some c ∧ py_isspace c = false) →
  (∃ c, last m = Some c ∧ py_isspace c = false) →
  py_strip py_isspace m = m.
Proof.
  intros (c & Hhead & Hc) (c' & Hlast & Hc'). unfold py_strip.
  assert (py_lstrip py_isspace m = m) as ->.
  { destruct m as [|a m]; [done|]. simpl in *. injection Hhead as ->.
    by rewrite Hc. }
  apply last_Some in Hlast as [m' ->]. by apply py_rstrip_nonspace_end.
Qed.

Lemma py_rstrip_messages msgs :
  py_isspace NEWLINE = true →
  msgs ≠ [] →
  Forall (λ m, (NEWLINE ∉ m) ∧
               (∃ c, head m = Some c ∧ py_isspace c = false) ∧
               (∃ c, last m = Some c ∧ py_isspace c = false)) msgs →
  py_rstrip py_isspace (concat (map (λ m, m ++ [NEWLINE]) msgs)) ≠ [] ∧
  py_split NEWLINE
    (py_rstrip py_isspace (concat (map (λ m, m ++ [NEWLINE]) msgs)))
  = msgs.
Proof.
  intros Hnl Hne Hall. induction Hall as [|m ms (Hm & Hhead & Hlast) Hms IH];
    [done|]. clear Hne.
  assert (py_rstrip py_isspace m = m ∧ m ≠ []) as [Hr Hm0].
  { destruct Hlast as (c' & [m' ->]%last_Some & Hc').
    split; [by apply py_rstrip_nonspace_end|by destruct m']. }
  destruct ms as [|m2 ms].
  - simpl. rewrite app_nil_r, py_rstrip_space_end, Hr by done.
    split; [done|]. by apply py_split_one.
  - destruct IH as [IH1 IH2]; [done|].
    change (concat (map (λ m, m ++ [NEWLINE]) (m :: m2 :: ms)))
      with ((m ++ [NEWLINE])
            ++ concat (map (λ m, m ++ [NEWLINE]) (m2 :: ms))).
    rewrite py_rstrip_app by done. split.
    + intros [[? _]%app_eq_nil _]%app_eq_nil. done.
    + rewrite <- app_assoc. cbn [app]. rewrite py_split_app by done.
      by rewrite IH2.
Qed.

(** Messages sent each with a newline after it come out of
    [receive_data] as they went in, when they arrive in one piece: each
    message free of newlines and with no whitespace at either end, as a
    JSON object is written. *)
Theorem receive_data_round_trip nm msgs :
  py_isspace NEWLINE = true →
  Forall (λ m, (NEWLINE ∉ m) ∧
               (∃ c, head m = Some c ∧ py_isspace c = false) ∧
               (∃ c, last m = Some c ∧ py_isspace c = false)) msgs →
  receive_data py_isspace nm
    (Response (concat (map (λ m, m ++ [NEWLINE]) msgs)))
  = (msgs, nm).
Proof.
  intros Hnl Hall. simpl.
  destruct msgs as [|m ms]; [done|].
  destruct (py_rstrip_messages (m :: ms) Hnl) as [_ Hsplit]; [done..|].
  pose proof Hall as Hall'.
  apply Forall_cons in Hall' as [(_ & (c & Hhead & Hc) & _) _].
  destruct m as [|a m]; [done|]. simpl in Hhead. injection Hhead as ->.
  rewrite bool_decide_eq_true_2 by done. f_equal.
  unfold split_messages.
  assert (py_lstrip py_isspace
            (concat (map (λ m, m ++ [NEWLINE]) ((c :: m) :: ms)))
          = concat (map (λ m, m ++ [NEWLINE]) ((c :: m) :: ms))) as Hl.
  { simpl. by rewrite Hc. }
  assert (py_strip py_isspace
            (concat (map (λ m, m ++ [NEWLINE]) ((c :: m) :: ms)))
          = py_rstrip py_isspace
              (concat (map (λ m, m ++ [NEWLINE]) ((c :: m) :: ms)))) as ->
    by (unfold py_strip; by rewrite Hl).
  rewrite Hsplit.
  apply filter_all. eapply Forall_impl; [exact Hall|].
  intros m' (_ & Hh & Hla). rewrite py_strip_framed by done.
  destruct Hh as (? & ? & _). by destruct m'.
Qed.

End FramingFacts.

(** * The claims on concrete inputs

    Each result that has hypotheses is applied to an input that meets
    them. *)

Example dijkstra_scenario : dijkstra grid_map (3, 20) (14, 4) = Ret scenario_path.
Proof. by vm_compute. Qed.

Lemma scenario_reachable : reachable grid_map (3, 20) (14, 4).
Proof.
  exists scenario_path. apply is_path_valid. unfold scenario_path.
  solve_is_path.
Qed.

Lemma dijkstra_shortest_path_witness :
  rectangular grid_map ∧ pathable grid_map (3, 20) ∧ pathable grid_map (14, 4) ∧
  reachable grid_map (3, 20) (14, 4) ∧
  ∃ p, dijkstra grid_map (3, 20) (14, 4) = Ret p ∧ p ≠ [] ∧
       head p = Some (3, 20) ∧ last p = Some (14, 4) ∧
       Forall (pathable grid_map) p ∧
       (∀ (i : nat) a b, p !! i = Some a → p !! S i = Some b → unit_step a b) ∧
       (∀ q, valid_path grid_map (3, 20) (14, 4) q → (length p ≤ length q)%nat).
Proof.
  assert (pathable grid_map (3, 20)) as Hs by solve_pathable.
  assert (pathable grid_map (14, 4)) as He by solve_pathable.
  split; [exact grid_map_rectangular|]. split; [exact Hs|]. split; [exact He|].
  split; [exact scenario_reachable|].
  exact (proj1 (dijkstra_shortest_path grid_map (3, 20) (14, 4)
                  grid_map_rectangular Hs He) scenario_reachable).
Defined.

Lemma dijkstra_invalid_endpoint_empty_witness :
  rectangular grid_map ∧ ¬ (pathable grid_map (0, 0) ∧ pathable grid_map (14, 4)) ∧
  dijkstra grid_map (0, 0) (14, 4) = Ret [].
Proof.
  assert (¬ (pathable grid_map (0, 0) ∧ pathable grid_map (14, 4))) as Hbad.
  { intros [[_ H] _]. vm_compute in H. discriminate. }
  split; [exact grid_map_rectangular|]. split; [exact Hbad|].
  exact (dijkstra_invalid_endpoint_empty grid_map (0, 0) (14, 4)
           grid_map_rectangular Hbad).
Defined.

Example after_first_status_plan :
  globals after_first_status
  = Planner (Some (2, 0)) (Some (2, 0)) (Some (2, 2))
      [(2, 0); (2, 1); (2, 2)] 0 false 0.
Proof. by vm_compute. Qed.

Lemma cursor_advance_needs_confirmed_arrival_witness :
  reachable_server after_first_status ∧
  replan_due 100 (update_belief first_status (globals after_first_status))
  = false ∧
  let st' := (handle_status 100 first_status (globals after_first_status)).2 in
  current_path_index st' ≤ current_path_index (globals after_first_status) ∨
  (current_robot_grid_pos_actual st' = Some (robot_grid_pos first_status) ∧
   planned_path st' !! Z.to_nat (current_path_index st')
   = Some (robot_grid_pos first_status) ∧
   current_robot_grid_pos_path st' = Some (robot_grid_pos first_status)).
Proof.
  assert (reachable_server after_first_status) as Hr
    by (apply reachable_step, reachable_init).
  assert (replan_due 100 (update_belief first_status (globals after_first_status))
          = false) as Hdue by (by vm_compute).
  split; [exact Hr|]. split; [exact Hdue|].
  exact (cursor_advance_needs_confirmed_arrival after_first_status 100
           first_status Hr Hdue).
Defined.

(** Claim C4 as stated fails: a replan that finds no path empties the
    planned path. *)
Lemma replan_failure_drops_path :
  replan_due 2000 before_failed_replan = true ∧
  current_robot_grid_pos_actual before_failed_replan = Some (3, 1) ∧
  goal_grid_pos before_failed_replan = Some (2, 2) ∧
  dijkstra grid_map (3, 1) (2, 2) = Ret [] ∧
  planned_path before_failed_replan = [(2, 0); (2, 1); (2, 2)] ∧
  planned_path (replan 2000 before_failed_replan).2 = [] ∧
  planned_path (replan 2000 before_failed_replan).2
  ≠ planned_path before_failed_replan.
Proof. repeat split; by vm_compute. Qed.

Lemma replan_no_path_clears_path_witness :
  current_robot_grid_pos_actual before_failed_replan = Some (3, 1) ∧
  goal_grid_pos before_failed_replan = Some (2, 2) ∧
  dijkstra grid_map (3, 1) (2, 2) = Ret [] ∧
  replan 2000 before_failed_replan =
    (Ret tt,
     Planner (current_robot_grid_pos_actual before_failed_replan)
       (current_robot_grid_pos_path before_failed_replan)
       (goal_grid_pos before_failed_replan) []
       (current_path_index before_failed_replan) true
       (last_replan_time before_failed_replan)).
Proof.
  assert (current_robot_grid_pos_actual before_failed_replan = Some (3, 1))
    as Ha by (by vm_compute).
  assert (goal_grid_pos before_failed_replan = Some (2, 2))
    as Hg by (by vm_compute).
  assert (dijkstra grid_map (3, 1) (2, 2) = Ret []) as Hd by (by vm_compute).
  split; [exact Ha|]. split; [exact Hg|]. split; [exact Hd|].
  exact (replan_no_path_clears_path 2000 before_failed_replan (3, 1) (2, 2)
           Ha Hg Hd).
Defined.

Example at_goal_status_stops :
  handle_status 100 at_goal_status (globals after_first_status)
  = (Ret (Command "stop" [] (Some (2, 2)) 0),
     Planner (Some (2, 2)) (Some (2, 2)) (Some (2, 2)) [] 0 false 100).
Proof. by vm_compute. Qed.


(** The state [on_last_segment] is the one the server loop is in after a
    first status message from [(2, 1)] with the goal [(2, 2)]. *)
Example on_last_segment_reached :
  loop_iteration
    (LoopInput 0 true
       (RecvData [StatusMessage (pf := binary64_float)
                    (Status (2, 1) (2, 2) 0%float [0; 1; 0])]))
    initial_server
  = Server true on_last_segment.
Proof. by vm_compute. Qed.


Lemma disconnect_resets_session_witness :
  recv (LoopInput 100 false RecvEmpty) = RecvEmpty ∧
  (conn after_first_status = true ∨
   accept_ok (LoopInput 100 false RecvEmpty) = true) ∧
  loop_iteration (LoopInput 100 false RecvEmpty) after_first_status =
    Server false
      (Planner None None (goal_grid_pos (globals after_first_status)) []
         (current_path_index (globals after_first_status)) true
         (last_replan_time (globals after_first_status))).
Proof.
  assert (conn after_first_status = true ∨
          accept_ok (LoopInput 100 false (RecvEmpty (pf := binary64_float)))
          = true) as Hc by (left; reflexivity).
  split; [reflexivity|]. split; [exact Hc|].
  exact (disconnect_resets_session (LoopInput 100 false RecvEmpty)
           after_first_status eq_refl Hc).
Defined.

Lemma action_follows_angular_error_witness :
  let st := globals after_first_status in
  unit_step (2, 0) (2, 1) ∧
  0 ≤ current_path_index st ∧
  planned_path st !! Z.to_nat (current_path_index st) = Some (2, 0) ∧
  planned_path st !! Z.to_nat (current_path_index st + 1) = Some (2, 1) ∧
  goal_grid_pos st ≠ Some (2, 0) ∧
  get_action_from_path (Some (2, 0)) 0%float [0; 1; 0] st
  = (angular_error (2, 0) (2, 1) 0%float ≫= λ err,
       Ret (action_for_error err, Some (2, 0)),
     st).
Proof.
  set (st := globals after_first_status).
  assert (unit_step (2, 0) (2, 1)) as Hstep
    by (left; split; [reflexivity|reflexivity]).
  assert (0 ≤ current_path_index st) as Hidx by (by vm_compute).
  assert (planned_path st !! Z.to_nat (current_path_index st) = Some (2, 0))
    as Hcur by (by vm_compute).
  assert (planned_path st !! Z.to_nat (current_path_index st + 1) = Some (2, 1))
    as Hnxt by (by vm_compute).
  assert (goal_grid_pos st ≠ Some (2, 0)) as Hgoal
    by (intros H; vm_compute in H; discriminate).
  split; [exact Hstep|]. split; [exact Hidx|]. split; [exact Hcur|].
  split; [exact Hnxt|]. split; [exact Hgoal|].
  exact (action_follows_angular_error st (2, 0) (2, 1) 0%float
           [0; 1; 0] Hstep Hidx Hcur Hnxt Hgoal).
Defined.

(** Heading along the row, towards higher columns, the error is zero and
    the answer is ['forward']. *)
Example forward_when_heading_along_the_row :
  angular_error (2, 0) (2, 1) 0%float = Ret 0%float ∧
  action_for_error 0%float = "forward"%string.
Proof. split; by vm_compute. Qed.

(** Claim C8 as stated fails: it speaks of every heading, and on an
    infinite one the sine raises [ValueError]; [get_action_from_path]
    emits no action for the segment from [(2, 1)] to [(2, 2)]. *)
Lemma infinite_heading_gives_no_action :
  unit_step (2, 1) (2, 2) ∧
  planned_path on_last_segment
    !! Z.to_nat (current_path_index on_last_segment) = Some (2, 1) ∧
  planned_path on_last_segment
    !! Z.to_nat (current_path_index on_last_segment + 1) = Some (2, 2) ∧
  goal_grid_pos on_last_segment ≠ Some (2, 1) ∧
  angular_error (2, 1) (2, 2) infinity = Raise ValueError ∧
  get_action_from_path (Some (2, 1)) infinity [0; 1; 0] on_last_segment
  = (Raise ValueError, on_last_segment) ∧
  (∀ a n, get_action_from_path (Some (2, 1)) infinity [0; 1; 0] on_last_segment
          ≠ (Ret (a, n), on_last_segment)).
Proof.
  assert (get_action_from_path (Some (2, 1)) infinity [0; 1; 0] on_last_segment
          = (Raise ValueError, on_last_segment)) as Hrun by (by vm_compute).
  split; [left; split; reflexivity|].
  split; [by vm_compute|]. split; [by vm_compute|].
  split; [intros H; vm_compute in H; discriminate|].
  split; [by vm_compute|]. split; [exact Hrun|].
  intros a n. rewrite Hrun. discriminate.
Qed.

Example sense_twice_run :
  run_detector sense_twice new_detector
  = Ret ([[(4, 20); (4, 19)]; []], [[(4, 20); (4, 19)]; []],
         Detector {[ (4, 20); (4, 19) ]} []).
Proof. by vm_compute. Qed.

Lemma obstacles_reported_once_witness :
  run_detector sense_twice new_detector
  = Ret ([[(4, 20); (4, 19)]; []], [[(4, 20); (4, 19)]; []],
         Detector {[ (4, 20); (4, 19) ]} []) ∧
  NoDup (concat [[(4, 20); (4, 19)]; []]) ∧
  NoDup (concat [[(4, 20); (4, 19)]; ([] : list cell)]).
Proof.
  split; [exact sense_twice_run|].
  exact (obstacles_reported_once sense_twice _ _ _ sense_twice_run).
Defined.

Lemma forward_without_line_turns_left_witness :
  is_turning new_turn_controller = false ∧
  (py_any [0; 0; 0] = false →
   resolve_effective_command new_turn_controller "forward" [0; 0; 0]
   = (Some "turn_left"%string, new_turn_controller) ∧
   ∀ t, ∃ speeds tc',
     execute_movement new_turn_controller (Some "turn_left"%string) [0; 0; 0] t
     = Ret (speeds, tc') ∧ is_turning tc' = true) ∧
  (∀ esp32_command, esp32_command ∈ PROTOCOL_ACTIONS →
   (resolve_effective_command new_turn_controller esp32_command [0; 0; 0]).1
   = Some esp32_command ↔
   py_any [0; 0; 0] = true ∨
   esp32_command ∈ ["turn_left"; "turn_right"; "stop"]%string).
Proof.
  split; [reflexivity|].
  exact (forward_without_line_turns_left new_turn_controller [0; 0; 0] eq_refl).
Defined.

(** * The further results on concrete inputs *)

Lemma pq_fifo_among_equals_witness :
  let q := [PqEntry (0, 0) 1; PqEntry (0, 1) 1; PqEntry (1, 1) 2] in
  StronglySorted prio_le q ∧
  pq_put q (5, 5) 1
  = filter (λ e, priority e ≤ 1) q
    ++ PqEntry (5, 5) 1 :: filter (λ e, 1 < priority e) q ∧
  ∀ x q', pq_get q = (Some x, q') →
    ∃ e, q = e :: q' ∧ item e = x ∧ Forall (prio_le e) q' ∧
         StronglySorted prio_le q'.
Proof.
  intros q.
  assert (StronglySorted prio_le q) as Hq.
  { unfold q. repeat constructor; unfold prio_le; simpl; lia. }
  split; [exact Hq|]. exact (pq_fifo_among_equals q (5, 5) 1 Hq).
Defined.

Lemma get_valid_neighbors_exact_witness :
  rectangular grid_map ∧
  ∃ nbrs,
    get_valid_neighbors 2 10 (grid_rows grid_map) (grid_cols grid_map) grid_map
    = Ret nbrs ∧
    (length nbrs ≤ 4)%nat ∧ NoDup nbrs ∧
    ∀ v c, (v, c) ∈ nbrs ↔ c = 1 ∧ unit_step (2, 10) v ∧ pathable grid_map v.
Proof.
  split; [exact grid_map_rectangular|].
  exact (get_valid_neighbors_exact grid_map (2, 10) grid_map_rectangular).
Defined.

Lemma dijkstra_sound_witness :
  rectangular grid_map ∧
  dijkstra grid_map (3, 20) (14, 4) = Ret scenario_path ∧
  scenario_path ≠ [] ∧
  valid_path grid_map (3, 20) (14, 4) scenario_path ∧ NoDup scenario_path ∧
  (length scenario_path
   ≤ length grid_map * length (default [] (grid_map !! 0%nat)))%nat.
Proof.
  assert (scenario_path ≠ []) as Hne by discriminate.
  split; [exact grid_map_rectangular|]. split; [exact dijkstra_scenario|].
  split; [exact Hne|].
  exact (dijkstra_sound grid_map (3, 20) (14, 4) scenario_path
           grid_map_rectangular dijkstra_scenario Hne).
Defined.

Lemma dijkstra_same_cell_witness :
  rectangular grid_map ∧ pathable grid_map (2, 0) ∧
  dijkstra grid_map (2, 0) (2, 0) = Ret [(2, 0)].
Proof.
  assert (pathable grid_map (2, 0)) as Hs by solve_pathable.
  split; [exact grid_map_rectangular|]. split; [exact Hs|].
  exact (dijkstra_same_cell grid_map (2, 0) grid_map_rectangular Hs).
Defined.

Lemma dijkstra_returns_witness :
  rectangular grid_map ∧
  ∃ p, dijkstra grid_map (3, 20) (14, 4) = Ret p ∧
       ∀ fuel, (grid_fuel grid_map ≤ fuel)%nat →
               dijkstra_fuel fuel grid_map (3, 20) (14, 4) = Ret p.
Proof.
  split; [exact grid_map_rectangular|].
  exact (dijkstra_returns grid_map (3, 20) (14, 4) grid_map_rectangular).
Defined.

(** The robot believed on [(2, 0)], heading along the row, on the path of
    the first plan. *)
Lemma get_action_from_path_safe_witness :
  let st := globals after_first_status in
  get_action_from_path (pf := binary64_float) (Some (2, 0)) 0%float [0; 1; 0] st
  = (Ret ("forward"%string, Some (2, 0)), st) ∧
  ∃ i,
    st = set_path_index i st ∧
    (i = current_path_index st ∨
     (current_path_index st < i < Z.of_nat (length (planned_path st)) ∧
      planned_path st !! Z.to_nat i = Some (2, 0))) ∧
    Some (2, 0) = Some (2, 0) ∧ "forward"%string ∈ PROTOCOL_ACTIONS ∧
    ("forward"%string ≠ "stop"%string →
     ∃ cur nxt err, Some (2, 0) = Some cur ∧ goal_grid_pos st ≠ Some cur ∧
       path_segment (planned_path st) i cur nxt ∧
       angular_error cur nxt 0%float = Ret err ∧
       "forward"%string = action_for_error err).
Proof.
  intros st.
  assert (get_action_from_path (pf := binary64_float) (Some (2, 0)) 0%float
            [0; 1; 0] st
          = (Ret ("forward"%string, Some (2, 0)), st)) as Hrun
    by (by vm_compute).
  split; [exact Hrun|].
  exact (get_action_from_path_safe (Some (2, 0)) 0%float [0; 1; 0] st _ _ Hrun).
Defined.

Lemma replan_installs_shortest_path_witness :
  let st := Planner (Some (2, 0)) None (Some (2, 2)) [] 0 true 0 in
  current_robot_grid_pos_actual st = Some (2, 0) ∧
  goal_grid_pos st = Some (2, 2) ∧
  reachable grid_map (2, 0) (2, 2) ∧
  ∃ p, valid_path grid_map (2, 0) (2, 2) p ∧
       (∀ q, valid_path grid_map (2, 0) (2, 2) q → (length p ≤ length q)%nat) ∧
       replan 500 st
       = (Ret tt, Planner (Some (2, 0)) (Some (2, 0)) (Some (2, 2)) p 0 false 500).
Proof.
  intros st.
  assert (reachable grid_map (2, 0) (2, 2)) as Hreach.
  { exists [(2, 0); (2, 1); (2, 2)]. apply is_path_valid. solve_is_path. }
  split; [reflexivity|]. split; [reflexivity|]. split; [exact Hreach|].
  exact (replan_installs_shortest_path 500 st (2, 0) (2, 2)
           eq_refl eq_refl Hreach).
Defined.


Lemma server_loop_invariant_witness :
  reachable_server after_first_status ∧
  (planned_path (globals after_first_status) = [] ∨
   ∃ s gl c,
     goal_grid_pos (globals after_first_status) = Some gl ∧
     valid_path grid_map s gl (planned_path (globals after_first_status)) ∧
     NoDup (planned_path (globals after_first_status)) ∧
     (∀ q, valid_path grid_map s gl q →
           (length (planned_path (globals after_first_status)) ≤ length q)%nat) ∧
     current_robot_grid_pos_path (globals after_first_status) = Some c ∧
     0 ≤ current_path_index (globals after_first_status)
       < Z.of_nat (length (planned_path (globals after_first_status))) ∧
     planned_path (globals after_first_status)
       !! Z.to_nat (current_path_index (globals after_first_status))
     = Some c).
Proof.
  assert (reachable_server after_first_status) as Hr
    by (apply reachable_step, reachable_init).
  split; [exact Hr|]. exact (server_loop_invariant after_first_status Hr).
Defined.

Lemma world_to_grid_in_grid_witness :
  world_to_grid (bm := binary64_math) 1.069802 0.15297 = Ret (3, 20) ∧
  in_grid grid_map (3, 20) ∧ _is_valid_position (3, 20) = true.
Proof.
  assert (world_to_grid (bm := binary64_math) 1.069802 0.15297 = Ret (3, 20))
    as Hrun by (by vm_compute).
  split; [exact Hrun|].
  exact (world_to_grid_in_grid 1.069802 0.15297 (3, 20) Hrun).
Defined.

Lemma obstacle_position_adjacent_witness :
  0 ≤ 0 ∧
  if 0 <? 3
  then ∃ p, _calculate_obstacle_position (bm := binary64_math)
              3 20 (MATH_PI / 2) 0 = Ret p ∧
            Z.max (Z.abs (p.1 - 3)) (Z.abs (p.2 - 20)) = 1 ∧
            (unit_step (3, 20) p ↔ 0 = 0)
  else _calculate_obstacle_position (bm := binary64_math)
         3 20 (MATH_PI / 2) 0 = Raise IndexError.
Proof.
  assert (0 ≤ 0) as H0 by lia.
  split; [exact H0|].
  exact (obstacle_position_adjacent (bm := binary64_math) 3 20 (MATH_PI / 2) 0
           H0).
Defined.

Lemma process_sensor_readings_sound_witness :
  (length [200; 50; 200]%float ≤ 3)%nat ∧
  world_to_grid (bm := binary64_math) (pose_x initial_pose) (pose_z initial_pose)
  = Ret (3, 20) ∧
  ∃ new d',
    process_sensor_readings (bm := binary64_math) new_detector initial_pose
      (pose_theta initial_pose) [200; 50; 200]%float = Ret (new, d') ∧
    Forall (λ x, in_grid grid_map x ∧
                 Z.max (Z.abs (x.1 - 3)) (Z.abs (x.2 - 20)) = 1 ∧
                 x ∉ detected_obstacles new_detector) new ∧
    NoDup new ∧
    detected_obstacles d' = detected_obstacles new_detector ∪ list_to_set new ∧
    recent_obstacles d' = recent_obstacles new_detector.
Proof.
  assert (length [200; 50; 200]%float ≤ 3)%nat as Hlen by (simpl; lia).
  assert (world_to_grid (bm := binary64_math) (pose_x initial_pose)
            (pose_z initial_pose) = Ret (3, 20)) as Hcur by (by vm_compute).
  split; [exact Hlen|]. split; [exact Hcur|].
  exact (process_sensor_readings_sound new_detector initial_pose
           (pose_theta initial_pose) [200; 50; 200]%float (3, 20) Hlen Hcur).
Defined.


Lemma world_to_grid_of_center_witness :
  0 ≤ 3 < GRID_ROWS ∧ 0 ≤ 20 < GRID_COLS ∧
  world_to_grid (bm := binary64_math)
    (grid_to_world_center 3 20).1 (grid_to_world_center 3 20).2
  = Ret (3, 20).
Proof.
  assert (0 ≤ 3 < GRID_ROWS) as Hrow by (unfold GRID_ROWS; lia).
  assert (0 ≤ 20 < GRID_COLS) as Hcol by (unfold GRID_COLS; lia).
  split; [exact Hrow|]. split; [exact Hcol|].
  exact (world_to_grid_of_center 3 20 Hrow Hcol).
Defined.

Lemma turn_ends_only_on_centred_line_witness :
  let tc := TurnController ADJUSTING_ON_LINE (Some "turn_left"%string) 0 in
  let sp := Some (TURN_ADJUST_BASE_SPEED * 0.3,
                  TURN_ADJUST_BASE_SPEED * 0.3)%float in
  let tc' := TurnController NONE None 0 in
  is_turning tc = true ∧
  execute_turn tc (Some "turn_left"%string) [0; 1; 0] 1 = Ret (sp, tc') ∧
  is_Some sp ∧
  (is_turning tc' = false →
   current_phase tc = ADJUSTING_ON_LINE ∧
   ∃ l c r, [0; 1; 0] = [l; c; r] ∧
     truthy l = false ∧ truthy c = true ∧ truthy r = false ∧
     sp = Some (TURN_ADJUST_BASE_SPEED * 0.3,
                TURN_ADJUST_BASE_SPEED * 0.3)%float).
Proof.
  intros tc sp tc'.
  split; [reflexivity|]. split; [reflexivity|].
  exact (turn_ends_only_on_centred_line tc (Some "turn_left"%string) [0; 1; 0]
           1 sp tc' eq_refl eq_refl).
Defined.

Lemma stop_command_halts_witness :
  let tc := TurnController SEARCHING_LINE (Some "turn_left"%string) 0 in
  receive_commands [CommandMessage "stop"] (tc, "turn_left"%string)
  = Ret (reset tc, "stop"%string) ∧
  ∃ tc',
    motion_tick tc "turn_left" [CommandMessage "stop"] [0; 0; 0] 1
    = Ret ((0, 0)%float, tc', "stop"%string) ∧
    is_turning tc' = false ∧ active_command tc' = None.
Proof.
  intros tc. split; [reflexivity|].
  exact (stop_command_halts tc "turn_left" [CommandMessage "stop"] [0; 0; 0] 1
           (reset tc) eq_refl).
Defined.


Lemma turn_spins_towards_command_witness :
  is_turn_command "turn_right" = true ∧
  is_turning new_turn_controller = false ∧
  ∃ left_speed right_speed tc',
    execute_movement new_turn_controller (Some "turn_right"%string) [0; 0; 0] 1
    = Ret ((left_speed, right_speed), tc') ∧
    is_turning tc' = true ∧ active_command tc' = Some "turn_right"%string ∧
    (if bool_decide ("turn_right"%string = "turn_left"%string)
     then (left_speed <? 0) && (0 <? right_speed)
     else (right_speed <? 0) && (0 <? left_speed))%float = true.
Proof.
  split; [reflexivity|]. split; [reflexivity|].
  exact (turn_spins_towards_command new_turn_controller "turn_right" [0; 0; 0] 1
           eq_refl eq_refl).
Defined.

Lemma turn_in_progress_ignores_new_turn_witness :
  let tc := TurnController SEARCHING_LINE (Some "turn_left"%string) 0 in
  is_turning tc = true ∧
  active_command tc = Some "turn_left"%string ∧
  is_turn_command "turn_left" = true ∧
  is_turn_command "turn_right" = true ∧
  motion_tick tc "turn_left" [CommandMessage "turn_right"] [0; 0; 0] 1
  = '(speeds, tc') ← execute_turn tc (Some "turn_left"%string) [0; 0; 0] 1;
    match speeds with
    | Some speeds => Ret (speeds, tc', "turn_right"%string)
    | None => Raise TypeError
    end.
Proof.
  intros tc.
  split; [reflexivity|]. split; [reflexivity|]. split; [reflexivity|].
  split; [reflexivity|].
  exact (turn_in_progress_ignores_new_turn tc "turn_left" "turn_right"
           "turn_left" [0; 0; 0] 1 eq_refl eq_refl eq_refl eq_refl).
Defined.

Lemma receive_data_round_trip_witness :
  cpython_isspace NEWLINE = true ∧
  Forall (λ m, (NEWLINE ∉ m) ∧
               (∃ c, head m = Some c ∧ cpython_isspace c = false) ∧
               (∃ c, last m = Some c ∧ cpython_isspace c = false))
         two_messages ∧
  receive_data cpython_isspace (NetworkManager true)
    (Response (concat (map (λ m, m ++ [NEWLINE]) two_messages)))
  = (two_messages, NetworkManager true).
Proof.
  assert (Forall (λ m, (NEWLINE ∉ m) ∧
                       (∃ c, head m = Some c ∧ cpython_isspace c = false) ∧
                       (∃ c, last m = Some c ∧ cpython_isspace c = false))
                 two_messages) as Hall.
  { unfold two_messages.
    constructor; [|constructor; [|constructor]];
      (split; [apply (bool_decide_unpack _); vm_compute; exact I|]);
      split; eexists; (split; reflexivity). }
  split; [reflexivity|]. split; [exact Hall|].
  exact (receive_data_round_trip cpython_isspace (NetworkManager true)
           two_messages eq_refl Hall).
Defined.
